(** * wrapped-connex: the wrapper around the Connex library, embedded in Rocq

    The source is [src/index.ts]: a factory [wrapConnex(connex)] whose inner
    functions close over the injected [connex] object.  This development
    embeds the parts with control flow:

    - [waitForReceipt]: polls for a receipt once per block tick;
    - [fetchEvents]: applies a filter page after page;
    - [getContract] with [defineConstant], [defineSignedRequest] and
      [defineClause]: sorts ABI descriptors into method and event tables;
    - [signTx]: builds one signing request from clauses and options.

    Asynchronous code is modelled by explicit state passing: an [async]
    function is a function from the world to a settled promise ([Outcome])
    and the next world; [await] is the bind of that monad and [throw] is a
    rejection.  The world records every call made to an external
    collaborator, in order, so that "how many ticks were consumed" is a
    statement about the recorded trace.

    JavaScript numbers that count things ([iterations], [offset], [limit])
    are modelled as integers in [Z]; the development covers the range in
    which JavaScript's arithmetic on them is exact ([safe_integer]).  The
    wait for a receipt is also given for a budget that is any finite
    number, a rational, and for a ticker that may reject ([waitLoopQ]); on
    integers and ticks that arrive it is the loop over [Z]. *)

From Stdlib Require Import ZArith QArith Qround Lia.
From stdpp Require Import base strings list gmap.
From Equations Require Import Equations.

Set Warnings "-register-all".
Local Open Scope Z_scope.

(** ** ABI descriptors (the exported types of [index.ts]) *)

Inductive AbiType : Type :=
| AbiFunction
| AbiConstructor
| AbiEvent
| AbiFallback
| AbiReceive.

Inductive StateMutabilityType : Type :=
| Pure
| View
| Nonpayable
| Payable.

(** [AbiInput] and [AbiOutput]: optional fields are options, [components]
    nests the same type. *)
Inductive AbiInput : Type :=
| mkAbiInput (in_name in_type : string) (in_indexed : option bool)
             (in_components : option (list AbiInput))
             (in_internalType : option string).

Inductive AbiOutput : Type :=
| mkAbiOutput (out_name out_type : string)
              (out_components : option (list AbiOutput))
              (out_internalType : option string).

Record AbiItem : Type := mkAbiItem {
  anonymous : option bool;
  constant_flag : option bool;      (* the field [constant?: boolean] *)
  inputs : option (list AbiInput);
  name : option string;
  outputs : option (list AbiOutput);
  payable : option bool;
  stateMutability : option StateMutabilityType;
  type : AbiType;
  gas : option Z
}.

(** [Address] is the template type [`0x${string}`]: a string. *)
Definition Address : Type := string.

#[global] Instance AbiType_eq_dec : EqDecision AbiType.
Proof. solve_decision. Defined.

#[global] Instance StateMutabilityType_eq_dec : EqDecision StateMutabilityType.
Proof. solve_decision. Defined.

(** ** What the wrapper uses of [@vechain/connex-types]

    The declarations of the Connex library are not part of the wrapper; the
    wrapper only moves their values around.  They are taken as parameters,
    bundled in one interface.  The only field the wrapper reads is
    [reverted] of a receipt. *)
Class ConnexTypes : Type := {
  (* Connex.Thor.Transaction.Receipt and its [reverted: boolean] *)
  Receipt : Type;
  reverted : Receipt → bool;
  (* Connex.Thor.Filter.Row<"event", Connex.Thor.Account.WithDecoded> *)
  Row : Type;
  (* Connex.VM.Clause *)
  Clause : Type;
  (* Connex.VM.Output & Connex.Thor.Account.WithDecoded, and its [decoded] *)
  CallOutput : Type;
  Decoded : Type;
  decoded : CallOutput → Decoded;
  (* Connex.Vendor.TxSigningService and Connex.Vendor.TxResponse *)
  TxSigningService : Type;
  TxResponse : Type;
  (* Connex.Thor.Account.Event *)
  AccountEvent : Type;
  (* the [any] of [...args: any[]] *)
  Arg : Type
}.

(** ** Promises, thrown values and the world *)

(** A thrown value: [new Error(message)]. *)
Inductive Thrown : Type :=
| JsError (message : string).

(** A settled promise. *)
Inductive Outcome (A : Type) : Type :=
| Resolved (value : A)
| Rejected (reason : Thrown).
Arguments Resolved {A} value.
Arguments Rejected {A} reason.

Section Model.
Context `{ConnexTypes}.

(** The calls the wrapper makes to its collaborators, as the trace records
    them. *)
Inductive Event : Type :=
| EvTicker                                   (* connex.thor.ticker() *)
| EvNext                                     (* ticker.next() *)
| EvGetReceipt (txId : string)               (* connex.thor.transaction(txId).getReceipt() *)
| EvApply (offset limit : Z)                 (* filter.apply(offset, limit) *)
| EvCallback (events : list Row)             (* callback(events) *)
| EvCall (address : Address) (method : AbiItem) (args : list Arg)
                                             (* ...account(address).method(method).call(...args) *)
| EvAsClause (address : Address) (method : AbiItem) (args : list Arg)
                                             (* ...account(address).method(method).asClause(...args) *)
| EvRequest (service : TxSigningService).    (* service.request() *)

(** The world: how many blocks the ticker has reported and the trace of
    calls. *)
Record World : Type := mkWorld {
  ticks : nat;
  trace : list Event
}.

(** An [async] computation. *)
Definition Async (A : Type) : Type := World → Outcome A * World.

Definition ret {A} (a : A) : Async A := λ w, (Resolved a, w).

Definition throw {A} (e : Thrown) : Async A := λ w, (Rejected e, w).

(** [await]: a rejection of the awaited promise is rethrown. *)
Definition bind {A B} (m : Async A) (k : A → Async B) : Async B :=
  λ w, match m w with
       | (Resolved a, w') => k a w'
       | (Rejected e, w') => (Rejected e, w')
       end.

Definition record (ev : Event) (w : World) : World :=
  mkWorld (ticks w) (trace w ++ [ev]).

(** ** The injected [connex] object

    Each field is one capability of the Connex library, as far as the
    wrapper calls it.  A receipt query answers by the number of ticks
    reported so far. *)
Record Connex : Type := mkConnex {
  (* connex.thor.transaction(txId).getReceipt(), after [n] ticks *)
  thor_getReceipt : string → nat → Outcome (option Receipt);
  (* connex.thor.account(address).method(method).call(...args) *)
  thor_call : Address → AbiItem → list Arg → Outcome CallOutput;
  (* connex.thor.account(address).method(method).asClause(...args) *)
  thor_asClause : Address → AbiItem → list Arg → Outcome Clause;
  (* connex.thor.account(address).event(item) *)
  thor_event : Address → AbiItem → AccountEvent;
  (* connex.vendor.sign("tx", clauses) *)
  vendor_sign_tx : list Clause → TxSigningService;
  (* service.comment(text) *)
  service_comment : TxSigningService → string → TxSigningService;
  (* service.request() *)
  service_request : TxSigningService → Outcome TxResponse
}.

(** [Filter] is [Connex.Thor.Filter]: the wrapper calls its [apply]. *)
Record Filter : Type := mkFilter {
  apply : Z → Z → Outcome (list Row)
}.

(** [Callback]: user code with a state of its own, of type [C]; a call
    settles and leaves the next state. *)
Definition Callback (C : Type) : Type := list Row → C → Outcome unit * C.

Section WrapConnex.
Variable connex : Connex.

Notation "'await' x ':=' m 'in' k" := (bind m (λ x, k))
  (at level 10, x name, m at level 200, k at level 200,
   format "'[v' 'await'  x  ':='  m  'in' '/' k ']'").

(** *** Calls to the collaborators *)

(** [getTicker]: [return connex.thor.ticker()].  The ticker is the world's
    own; creating it is recorded. *)
Definition getTicker : Async unit :=
  λ w, (Resolved tt, record EvTicker w).

(** [ticker.next()]: resolves when one more block was appended.  Here every
    tick arrives; [ticker_next_of], further down, is the call on a ticker
    that may reject. *)
Definition ticker_next : Async unit :=
  λ w, (Resolved tt, mkWorld (S (ticks w)) (trace w ++ [EvNext])).

(** [connex.thor.transaction(txId).getReceipt()]. *)
Definition getReceipt (txId : string) : Async (option Receipt) :=
  λ w, (thor_getReceipt connex txId (ticks w), record (EvGetReceipt txId) w).

(** *** [waitForReceipt] *)

Definition NotFound : Thrown := JsError "Transaction not found.".
Definition Reverted : Thrown := JsError "The transaction has been reverted.".

(** The body of [for (let i = 0; ; i++)].  The loop ends because [i] grows
    towards [iterations].  Here [iterations] is an integer and every tick
    arrives; [waitLoopQ], further down, is the same loop for any finite
    number and any ticker, and the two agree where both apply
    ([waitForReceiptQ_integer]). *)
Equations? waitLoop (txId : string) (iterations : Z) (i : Z) (w : World)
  : Outcome Receipt * World by wf (Z.to_nat (iterations - i)) lt :=
  waitLoop txId iterations i w with Z_ge_lt_dec i iterations => {
    | left _ := throw NotFound w;
    | right _ :=
        (await _ := ticker_next in
         await receipt := getReceipt txId in
         match receipt with
         | Some r =>
             if reverted r then throw Reverted
             else ret r
         | None => λ w', waitLoop txId iterations (i + 1) w'
         end) w
  }.
Proof. lia. Qed.

(** [iterations = 5] is the default of the parameter. *)
Definition waitForReceipt (txId : string) (iterations : option Z) : Async Receipt :=
  let iterations := default 5 iterations in
  await _ := getTicker in
  waitLoop txId iterations 0.

(** *** [fetchEvents] *)

(** [filter.apply(offset, limit)]. *)
Definition filter_apply (filter : Filter) (offset limit : Z) : Async (list Row) :=
  λ w, (apply filter offset limit, record (EvApply offset limit) w).

(** [callback(events)]: runs the consumer from its state [c]. *)
Definition invoke {C} (callback : Callback C) (events : list Row) (c : C)
  : World → Outcome unit * C * World :=
  λ w, (callback events c, record (EvCallback events) w).

(** What a run of [fetchEvents] leaves: how the promise settled ([None]
    when the run is still going on), the consumer's state and the world. *)
Record Run (C : Type) : Type := mkRun {
  result : option (Outcome unit);
  consumer : C;
  world : World
}.
Arguments mkRun {C} result consumer world.
Arguments result {C} r.
Arguments consumer {C} r.
Arguments world {C} r.

(** The body of [for (;;)].  Nothing bounds this loop, so it runs on fuel:
    one unit per iteration, and [None] when [fuel] iterations did not end
    it (what was reached so far is returned all the same). *)
Fixpoint fetchLoop {C} (fuel : nat) (filter : Filter) (callback : Callback C)
    (limit offset : Z) (c : C) (w : World) : Run C :=
  match fuel with
  | O => mkRun None c w
  | S fuel' =>
      match filter_apply filter offset limit w with
      | (Rejected e, w1) => mkRun (Some (Rejected e)) c w1
      | (Resolved events, w1) =>
          if (length events =? 0)%nat then mkRun (Some (Resolved tt)) c w1
          else
            match invoke callback events c w1 with
            | (Rejected e, c2, w2) => mkRun (Some (Rejected e)) c2 w2
            | (Resolved _, c2, w2) =>
                fetchLoop fuel' filter callback limit (offset + limit) c2 w2
            end
      end
  end.

(** [limit: number = 20] is the default of the parameter; [let offset = 0]. *)
Definition fetchEvents {C} (fuel : nat) (filter : Filter) (callback : Callback C)
    (limit : option Z) (c : C) (w : World) : Run C :=
  let limit := default 20 limit in
  fetchLoop fuel filter callback limit 0 c w.

(** *** [getContract] and the methods it defines *)

(** [...account(address).method(method).call(...args)]. *)
Definition call (address : Address) (method : AbiItem) (args : list Arg)
  : Async CallOutput :=
  λ w, (thor_call connex address method args, record (EvCall address method args) w).

(** [...account(address).method(method).asClause(...args)]. *)
Definition asClause (address : Address) (method : AbiItem) (args : list Arg)
  : Async Clause :=
  λ w, (thor_asClause connex address method args,
        record (EvAsClause address method args) w).

(** [service.request()]. *)
Definition request (service : TxSigningService) : Async TxResponse :=
  λ w, (service_request connex service, record (EvRequest service) w).

Definition ConstantMethod : Type := list Arg → Async Decoded.
Definition SignedMethod : Type := list Arg → option string → Async TxResponse.
Definition ClauseMethod : Type := list Arg → Async Clause.

Definition defineConstant (address : Address) (method : AbiItem) : ConstantMethod :=
  λ args,
    await res := call address method args in
    ret (decoded res).

(** [comment != null] is [Some]. *)
Definition defineSignedRequest (address : Address) (method : AbiItem) : SignedMethod :=
  λ args comment,
    await clause := asClause address method args in
    match comment with
    | Some text =>
        request (service_comment connex (vendor_sign_tx connex [clause]) text)
    | None => request (vendor_sign_tx connex [clause])
    end.

Definition defineClause (address : Address) (method : AbiItem) : ClauseMethod :=
  λ args, asClause address method args.

(** [Contract]: the three method tables and the event table are JavaScript
    objects ([{}]) used as maps from names to values; the maps hold the
    entries [getContract] writes, that is the own properties of the
    objects.  Writing under a name makes or replaces the entry of that
    name, for every name but ["__proto__"]: on a [{}] that name is the
    inherited accessor of the prototype, and an assignment to it makes no
    entry.  The statements that say which entries a table holds are
    therefore made for ABIs that name no descriptor so ([plain_names]). *)
Record Methods : Type := mkMethods {
  constant : gmap string ConstantMethod;
  signed : gmap string SignedMethod;
  clause : gmap string ClauseMethod
}.

Record Contract : Type := mkContract {
  methods : Methods;
  events : gmap string AccountEvent;
  getAddress : unit → Address
}.

(** The body of [for (const item of abi)].  [item.name != null] is
    [name item = Some n]; the two branches of the source test it first and
    the type second. *)
Definition addItem (address : Address) (contract : Contract) (item : AbiItem)
  : Contract :=
  match name item with
  | Some n =>
      if decide (type item = AbiFunction) then
        if decide (stateMutability item = Some View) then
          mkContract
            (mkMethods
               (<[n := defineConstant address item]> (constant (methods contract)))
               (signed (methods contract))
               (clause (methods contract)))
            (events contract) (getAddress contract)
        else
          mkContract
            (mkMethods
               (constant (methods contract))
               (<[n := defineSignedRequest address item]> (signed (methods contract)))
               (<[n := defineClause address item]> (clause (methods contract))))
            (events contract) (getAddress contract)
      else if decide (type item = AbiEvent) then
        mkContract (methods contract)
          (<[n := thor_event connex address item]> (events contract))
          (getAddress contract)
      else contract
  | None => contract
  end.

Definition getContract (abi : list AbiItem) (address : Address) : Contract :=
  let contract := mkContract (mkMethods ∅ ∅ ∅) ∅ (λ _, address) in
  fold_left (addItem address) abi contract.

End WrapConnex.
End Model.

Arguments mkRun {_ C} result consumer world.
Arguments result {_ C} r.
Arguments consumer {_ C} r.
Arguments world {_ C} r.

(** ** Traces the theorems speak of *)

Section Traces.
Context `{ConnexTypes}.

(** [n] rounds of "wait for a tick, then ask for the receipt". *)
Fixpoint polls (txId : string) (n : nat) : list Event :=
  match n with
  | O => []
  | S m => EvNext :: EvGetReceipt txId :: polls txId m
  end.

(** The world after [n] such rounds. *)
Definition after_polls (txId : string) (n : nat) (w : World) : World :=
  mkWorld (ticks w + n)%nat (trace w ++ polls txId n).

(** How many ticks, receipt queries, filter applications and callback
    invocations a trace holds. *)
Definition is_next (ev : Event) : bool :=
  match ev with EvNext => true | _ => false end.
Definition is_query (ev : Event) : bool :=
  match ev with EvGetReceipt _ => true | _ => false end.
Definition is_apply (ev : Event) : bool :=
  match ev with EvApply _ _ => true | _ => false end.
Definition is_callback (ev : Event) : bool :=
  match ev with EvCallback _ => true | _ => false end.

Definition count (p : Event → bool) (tr : list Event) : nat :=
  length (List.filter p tr).

(** [m] full turns of [fetchEvents], from page number [start] on: page [j]
    is asked for at offset [j * limit] and handed to the callback. *)
Definition pages_trace (limit : Z) (page : nat → list Row) (start m : nat)
  : list Event :=
  flat_map (λ j, [EvApply (Z.of_nat j * limit) limit; EvCallback (page j)])
           (seq start m).

(** The page a filter answers with for page number [j] (no rows when it
    rejects). *)
Definition page_at (filter : Filter) (limit : Z) (j : nat) : list Row :=
  match apply filter (Z.of_nat j * limit) limit with
  | Resolved rows => rows
  | Rejected _ => []
  end.

End Traces.

(** ** Which descriptors a table entry can come from *)

(** The descriptors [getContract] files under the name [n]: in the table of
    constant methods, in the tables of signed methods and of clauses, and
    in the table of events. *)
Definition constant_named (n : string) (item : AbiItem) : Prop :=
  name item = Some n ∧ type item = AbiFunction ∧ stateMutability item = Some View.

Definition mutating_named (n : string) (item : AbiItem) : Prop :=
  name item = Some n ∧ type item = AbiFunction ∧ stateMutability item ≠ Some View.

Definition event_named (n : string) (item : AbiItem) : Prop :=
  name item = Some n ∧ type item = AbiEvent.

(** An ABI none of whose descriptors is named ["__proto__"]: for such an
    ABI each assignment [table[item.name] = ...] of [getContract] writes an
    entry of the table. *)
Definition plain_names (abi : list AbiItem) : Prop :=
  "__proto__" ∉ omap name abi.

#[global] Instance constant_named_dec n item : Decision (constant_named n item).
Proof. unfold constant_named. apply _. Defined.

#[global] Instance mutating_named_dec n item : Decision (mutating_named n item).
Proof. unfold mutating_named. apply _. Defined.

#[global] Instance event_named_dec n item : Decision (event_named n item).
Proof. unfold event_named. apply _. Defined.

(** ** [waitForReceipt] for any finite budget and any ticker *)

Section AnyBudget.
Context `{ConnexTypes}.

Notation "'await' x ':=' m 'in' k" := (bind m (λ x, k))
  (at level 10, x name, m at level 200, k at level 200,
   format "'[v' 'await'  x  ':='  m  'in' '/' k ']'").

(** The ticker of [connex.thor.ticker()]: what the call of [next()] made
    after [n] ticks settles with. *)
Record Ticker : Type := mkTicker {
  next_answer : nat → Outcome unit
}.

(** [ticker.next()] on such a ticker: a tick that arrives is one more block;
    a rejection is rethrown by the [await]. *)
Definition ticker_next_of (ticker : Ticker) : Async unit :=
  λ w, match next_answer ticker (ticks w) with
       | Resolved _ => (Resolved tt, mkWorld (S (ticks w)) (trace w ++ [EvNext]))
       | Rejected e => (Rejected e, mkWorld (ticks w) (trace w ++ [EvNext]))
       end.

(** The body of [for (let i = 0; ; i++)] when [iterations] is any finite
    number, a rational here: [i >= iterations] compares the integer [i] with
    it.  The loop ends because [i] grows towards the least integer that is
    no less than [iterations].  (The counter is exact as long as it stays
    below [2 ^ 53].) *)
Equations? waitLoopQ (connex : Connex) (ticker : Ticker) (txId : string)
    (iterations : Q) (i : Z) (w : World)
  : Outcome Receipt * World by wf (Z.to_nat (Qceiling iterations - i)) lt :=
  waitLoopQ connex ticker txId iterations i w
    with Qlt_le_dec (inject_Z i) iterations => {
    | right _ := throw NotFound w;
    | left _ :=
        (await _ := ticker_next_of ticker in
         await receipt := getReceipt connex txId in
         match receipt with
         | Some r =>
             if reverted r then throw Reverted
             else ret r
         | None => λ w', waitLoopQ connex ticker txId iterations (i + 1) w'
         end) w
  }.
Proof.
  pose proof (Qle_ceiling iterations) as Hceil.
  assert (Hlt : (inject_Z i < inject_Z (Qceiling iterations))%Q)
    by (eapply Qlt_le_trans; eauto).
  rewrite <- Zlt_Qlt in Hlt. lia.
Qed.

(** [iterations = 5] is the default of the parameter. *)
Definition waitForReceiptQ (connex : Connex) (ticker : Ticker) (txId : string)
    (iterations : option Q) : Async Receipt :=
  let iterations := default (inject_Z 5) iterations in
  await _ := getTicker in
  waitLoopQ connex ticker txId iterations 0.

End AnyBudget.

(** ** Sample collaborators, for the examples *)

Module Sample.

(** Receipts are an identifier and the flag; rows, arguments and decoded
    values are numbers; clauses, responses and events are texts. *)
#[local] Instance types : ConnexTypes := {|
  Receipt := string * bool;
  reverted := snd;
  Row := nat;
  Clause := string;
  CallOutput := list Z;
  Decoded := list Z;
  decoded := λ out, out;
  TxSigningService := list string * option string;
  TxResponse := string;
  AccountEvent := string * option string;
  Arg := Z
|}.

(** A chain on which the receipt [found] of every transaction shows up on
    tick [k] ([None]: it never does). *)
Definition chain (k : nat) (found : option (@Receipt types)) : @Connex types := {|
  thor_getReceipt := λ _ n, if (n <? k)%nat then Resolved None else Resolved found;
  thor_call := λ _ _ args, Resolved args;
  thor_asClause := λ address _ _, Resolved address;
  thor_event := λ address item, (address, name item);
  vendor_sign_tx := λ clauses, (clauses, None);
  service_comment := λ service text, (service.1, Some text);
  service_request := λ service, Resolved "0xsigned"
|}.

Definition genesis : @World types := mkWorld 0 [].

(** A filter over a fixed log of rows: [apply] answers with the window
    [offset, offset + limit). *)
Definition log_filter (rows : list nat) : @Filter types := {|
  apply := λ offset limit,
    Resolved (take (Z.to_nat limit) (drop (Z.to_nat offset) rows))
|}.

(** A consumer that keeps every row, one that rejects every page, and one
    that counts pages and rejects the one numbered [j]. *)
Definition collect : @Callback types (list nat) :=
  λ rows kept, (Resolved tt, kept ++ rows).

Definition refuse : @Callback types unit :=
  λ _ c, (Rejected (JsError "consumer failed"), c).

Definition refuse_page (j : nat) : @Callback types nat :=
  λ _ seen,
    if (seen =? j)%nat then (Rejected (JsError "consumer failed"), seen)
    else (Resolved tt, S seen).

(** Descriptors of an ABI. *)
Definition descriptor (n : option string) (t : AbiType)
    (m : option StateMutabilityType) : AbiItem :=
  mkAbiItem None None None n None None m t None.

Definition erc20 : list AbiItem :=
  [ descriptor (Some "balanceOf") AbiFunction (Some View);
    descriptor (Some "transfer") AbiFunction (Some Nonpayable);
    descriptor (Some "decimals") AbiFunction (Some Pure);
    descriptor (Some "Transfer") AbiEvent None;
    descriptor None AbiConstructor (Some Nonpayable);
    descriptor None AbiFallback (Some Payable) ].

(** A chain whose receipt query answers nothing before tick [k] and rejects
    from tick [k] on (the node cannot be reached). *)
Definition unreachable : Thrown := JsError "node unreachable".

Definition flaky_chain (k : nat) : @Connex types := {|
  thor_getReceipt := λ _ n, if (n <? k)%nat then Resolved None else Rejected unreachable;
  thor_call := λ _ _ _, Rejected unreachable;
  thor_asClause := λ address _ _, Resolved address;
  thor_event := λ address item, (address, name item);
  vendor_sign_tx := λ clauses, (clauses, None);
  service_comment := λ service text, (service.1, Some text);
  service_request := λ service, Rejected unreachable
|}.

(** A filter over a log that rejects the application at offset [broken]. *)
Definition broken_filter (rows : list nat) (broken : Z) : @Filter types := {|
  apply := λ offset limit,
    if offset =? broken then Rejected unreachable
    else Resolved (take (Z.to_nat limit) (drop (Z.to_nat offset) rows))
|}.

(** A filter that answers every application with the same row. *)
Definition endless_filter : @Filter types := {|
  apply := λ _ _, Resolved [7%nat]
|}.

(** A filter over a log that answers with [cap] rows at most, whatever the
    limit asked for. *)
Definition capped_filter (rows : list nat) (cap : nat) : @Filter types := {|
  apply := λ offset limit,
    Resolved (take (cap `min` Z.to_nat limit) (drop (Z.to_nat offset) rows))
|}.

(** A ticker whose every tick arrives, and one that rejects the call made
    after [k] ticks. *)
Definition steady : Ticker := {|
  next_answer := λ _, Resolved tt
|}.

Definition stalling (k : nat) : Ticker := {|
  next_answer := λ n, if (n <? k)%nat then Resolved tt else Rejected unreachable
|}.

(** A consumer that counts the pages it gets. *)
Definition tally : @Callback types nat :=
  λ _ seen, (Resolved tt, S seen).

(** An ABI with an overloaded function, as ERC-721 has. *)
Definition overloaded : list AbiItem :=
  [ descriptor (Some "ownerOf") AbiFunction (Some View);
    mkAbiItem None None (Some []) (Some "safeTransferFrom") None None
      (Some Nonpayable) AbiFunction None;
    mkAbiItem None None None (Some "safeTransferFrom") None None
      (Some Payable) AbiFunction None ].

End Sample.

(** ** [signTx] *)

Section SignTx.
Context `{ConnexTypes}.

(** The further methods of [Connex.Vendor.TxSigningService] that [signTx]
    calls on the service it builds. *)
Record TxOptions : Type := mkTxOptions {
  (* service.signer(signer) *)
  service_signer : TxSigningService → string → TxSigningService;
  (* service.gas(gas) *)
  service_gas : TxSigningService → Z → TxSigningService;
  (* service.delegate(delegate) *)
  service_delegate : TxSigningService → string → TxSigningService
}.

(** [SignTxArgs].  [signer] is declared a string and tested against null
    all the same, so it is optional here as the other three are. *)
Record SignTxArgs : Type := mkSignTxArgs {
  tx_clauses : list Clause;
  tx_signer : option string;
  tx_gas : option Z;
  tx_delegate : option string;
  tx_comment : option string
}.

(** [signTx]: [comment = "Sign transaction"] is the default of the
    destructured field; each of [signer], [gas] and [delegate] is set when
    it is not null, in that order; the comment is always set. *)
Definition signTx (connex : Connex) (options : TxOptions) (args : SignTxArgs)
  : Async TxResponse :=
  let comment := default "Sign transaction" (tx_comment args) in
  let tx := vendor_sign_tx connex (tx_clauses args) in
  let tx :=
    match tx_signer args with
    | Some signer => service_signer options tx signer
    | None => tx
    end in
  let tx :=
    match tx_gas args with
    | Some gas => service_gas options tx gas
    | None => tx
    end in
  let tx :=
    match tx_delegate args with
    | Some delegate => service_delegate options tx delegate
    | None => tx
    end in
  request connex (service_comment connex tx comment).

End SignTx.

(** ** A log read through a window *)

Section Windows.
Context `{ConnexTypes}.

(** Page [j] of a log read in pages of [size] rows, and the number of pages
    that hold rows. *)
Definition window (rows : list Row) (size j : nat) : list Row :=
  take size (drop (j * size) rows).

Definition pages_needed (rows : list Row) (size : nat) : nat :=
  ((length rows + size - 1) / size)%nat.

End Windows.

(** ** The integers JavaScript counts with *)

(** [Number.MAX_SAFE_INTEGER]: up to it, and down to its opposite, the
    numbers of JavaScript are the integers and their sums are exact.  The
    offsets of [fetchEvents] are modelled in [Z]; a statement about every
    run of a given length asks for the largest offset of such a run to be
    in this range. *)
Definition MAX_SAFE_INTEGER : Z := 2 ^ 53 - 1.

Definition safe_integer (z : Z) : Prop :=
  - MAX_SAFE_INTEGER ≤ z ≤ MAX_SAFE_INTEGER.

(** ** Proof automation *)

(** Settles what [addItem] does to one table under one name: by cases on
    the name, the type and the state mutability of the descriptor. *)
Ltac settle_addItem :=
  case_decide;
  unfold addItem;
  unfold constant_named, mutating_named, event_named in *;
  destruct (name _) as [?|] eqn:?; simpl;
  repeat (case_decide; simpl);
  rewrite ?lookup_insert; repeat (case_decide; simpl);
  subst; try reflexivity; try (exfalso; intuition congruence).

(** ** Properties of [waitForReceipt] *)

Section WaitForReceipt.
Context `{ConnexTypes}.
Variable connex : Connex.

(** One turn of the loop, as the source reads. *)
Lemma waitLoop_eq txId iterations i (w : World) :
  waitLoop connex txId iterations i w =
  if Z_ge_lt_dec i iterations then throw NotFound w
  else bind ticker_next (λ _, bind (getReceipt connex txId) (λ receipt,
         match receipt with
         | Some r => if reverted r then throw Reverted else ret r
         | None => waitLoop connex txId iterations (i + 1)
         end)) w.
Proof.
  simp waitLoop. destruct (Z_ge_lt_dec i iterations); simpl; reflexivity.
Qed.

Lemma after_polls_0 txId (w : World) : after_polls txId 0 w = w.
Proof.
  destruct w as [t tr]. unfold after_polls. simpl.
  rewrite Nat.add_0_r, app_nil_r. reflexivity.
Qed.

(** [n] rounds are [n] ticks and [n] receipt queries. *)
Lemma count_polls txId (n : nat) :
  count is_next (polls txId n) = n ∧ count is_query (polls txId n) = n.
Proof.
  unfold count. induction n as [|n [IHn IHq]]; [split; reflexivity|].
  simpl. rewrite IHn, IHq. split; reflexivity.
Qed.

(** While the budget lasts and no receipt shows up, the loop goes on: [n]
    turns take [n] ticks and [n] queries. *)
Lemma waitLoop_absent txId iterations (n : nat) : ∀ i (w : World),
  i + Z.of_nat n ≤ iterations →
  (∀ j : nat, (1 ≤ j ≤ n)%nat →
     thor_getReceipt connex txId (ticks w + j)%nat = Resolved None) →
  waitLoop connex txId iterations i w =
  waitLoop connex txId iterations (i + Z.of_nat n) (after_polls txId n w).
Proof.
  induction n as [|n IH]; intros i w Hle Habs.
  - rewrite after_polls_0. f_equal. lia.
  - rewrite waitLoop_eq.
    destruct (Z_ge_lt_dec i iterations) as [Hge|Hlt]; [lia|].
    unfold bind, ticker_next, getReceipt, record. simpl.
    pose proof (Habs 1%nat ltac:(lia)) as H1.
    rewrite Nat.add_1_r in H1. rewrite H1.
    rewrite IH.
    + f_equal; [lia|]. unfold after_polls. simpl.
      f_equal; [lia|]. rewrite <- !app_assoc. reflexivity.
    + lia.
    + intros j Hj. simpl.
      specialize (Habs (S j) ltac:(lia)).
      rewrite <- Habs. f_equal. lia.
Qed.

(** The turn on which the receipt shows up ends the loop, one way or the
    other. *)
Lemma waitLoop_found txId iterations (k : nat) (r : Receipt) i (w : World) :
  (1 ≤ k)%nat →
  i + Z.of_nat k ≤ iterations →
  (∀ j : nat, (1 ≤ j < k)%nat →
     thor_getReceipt connex txId (ticks w + j)%nat = Resolved None) →
  thor_getReceipt connex txId (ticks w + k)%nat = Resolved (Some r) →
  waitLoop connex txId iterations i w =
  (if reverted r then Rejected Reverted else Resolved r, after_polls txId k w).
Proof.
  intros Hk Hle Habs Hr.
  destruct k as [|k]; [lia|].
  rewrite (waitLoop_absent txId iterations k i w) by (intros; try apply Habs; lia).
  rewrite waitLoop_eq.
  destruct (Z_ge_lt_dec (i + Z.of_nat k) iterations) as [Hge|Hlt]; [lia|].
  unfold bind, ticker_next, getReceipt, record, after_polls. simpl.
  replace (S (ticks w + k)) with (ticks w + S k)%nat by lia.
  rewrite Hr.
  assert (Htr : ((trace w ++ polls txId k) ++ [EvNext]) ++ [EvGetReceipt txId]
                = trace w ++ polls txId (S k)).
  { rewrite <- !app_assoc. f_equal.
    clear. induction k as [|k IH]; simpl; [reflexivity|].
    simpl in IH. rewrite IH. reflexivity. }
  rewrite Htr.
  destruct (reverted r); reflexivity.
Qed.

(** C1.  With a budget of [N > 0] ticks and no receipt on any of the first
    [N] ticks, [waitForReceipt] takes exactly [N] ticks, each followed by
    one receipt query, and then rejects with "Transaction not found.": the
    counter is compared with the budget before a tick is awaited. *)
Theorem waitForReceipt_not_found txId (N : nat) (w : World) :
  (0 < N)%nat →
  (∀ j : nat, (1 ≤ j ≤ N)%nat →
     thor_getReceipt connex txId (ticks w + j)%nat = Resolved None) →
  waitForReceipt connex txId (Some (Z.of_nat N)) w =
  (Rejected NotFound,
   mkWorld (ticks w + N)%nat (trace w ++ EvTicker :: polls txId N)).
Proof.
  intros _ Habs.
  unfold waitForReceipt, bind, getTicker. simpl.
  rewrite (waitLoop_absent txId (Z.of_nat N) N 0 (record EvTicker w))
    by (simpl; auto; lia).
  rewrite waitLoop_eq.
  destruct (Z_ge_lt_dec (0 + Z.of_nat N) (Z.of_nat N)) as [_|Hlt]; [|lia].
  unfold throw, after_polls, record. simpl.
  rewrite <- app_assoc. reflexivity.
Qed.

(** C2.  With a budget of 0 ticks, [waitForReceipt] rejects with
    "Transaction not found." at once: the ticker is created, and neither a
    tick nor the receipt is asked for. *)
Theorem waitForReceipt_zero_budget txId (w : World) :
  waitForReceipt connex txId (Some 0) w =
  (Rejected NotFound, mkWorld (ticks w) (trace w ++ [EvTicker])).
Proof.
  unfold waitForReceipt, bind, getTicker. simpl.
  rewrite waitLoop_eq. reflexivity.
Qed.

(** C3.  If the receipt first shows up on tick [k ≤ N] and is reverted,
    [waitForReceipt] rejects with "The transaction has been reverted."
    after exactly [k] ticks and [k] queries: nothing follows tick [k]. *)
Theorem waitForReceipt_reverted txId (N k : nat) (r : Receipt) (w : World) :
  (1 ≤ k ≤ N)%nat →
  (∀ j : nat, (1 ≤ j < k)%nat →
     thor_getReceipt connex txId (ticks w + j)%nat = Resolved None) →
  thor_getReceipt connex txId (ticks w + k)%nat = Resolved (Some r) →
  reverted r = true →
  waitForReceipt connex txId (Some (Z.of_nat N)) w =
  (Rejected Reverted,
   mkWorld (ticks w + k)%nat (trace w ++ EvTicker :: polls txId k)).
Proof.
  intros Hk Habs Hr Hrev.
  unfold waitForReceipt, bind, getTicker. simpl.
  rewrite (waitLoop_found txId (Z.of_nat N) k r 0 (record EvTicker w))
    by (simpl; auto; lia).
  rewrite Hrev. unfold after_polls, record. simpl.
  rewrite <- app_assoc. reflexivity.
Qed.

(** C4.  If the receipt first shows up on tick [k ≤ N] and is not reverted,
    [waitForReceipt] resolves with that receipt after exactly [k] ticks and
    [k] queries. *)
Theorem waitForReceipt_confirmed txId (N k : nat) (r : Receipt) (w : World) :
  (1 ≤ k ≤ N)%nat →
  (∀ j : nat, (1 ≤ j < k)%nat →
     thor_getReceipt connex txId (ticks w + j)%nat = Resolved None) →
  thor_getReceipt connex txId (ticks w + k)%nat = Resolved (Some r) →
  reverted r = false →
  waitForReceipt connex txId (Some (Z.of_nat N)) w =
  (Resolved r,
   mkWorld (ticks w + k)%nat (trace w ++ EvTicker :: polls txId k)).
Proof.
  intros Hk Habs Hr Hrev.
  unfold waitForReceipt, bind, getTicker. simpl.
  rewrite (waitLoop_found txId (Z.of_nat N) k r 0 (record EvTicker w))
    by (simpl; auto; lia).
  rewrite Hrev. unfold after_polls, record. simpl.
  rewrite <- app_assoc. reflexivity.
Qed.

End WaitForReceipt.


(** ** Properties of [fetchEvents] *)

Section FetchEvents.
Context `{ConnexTypes} {C : Type}.
Implicit Types (filter : Filter) (callback : Callback C) (c : C) (w : World).

Lemma pages_trace_S limit page start m :
  pages_trace limit page start (S m) =
  pages_trace limit page start m ++
  [EvApply (Z.of_nat (start + m) * limit) limit; EvCallback (page (start + m)%nat)].
Proof.
  unfold pages_trace. rewrite seq_S, flat_map_app. simpl. reflexivity.
Qed.

Lemma pages_trace_cons limit page start m :
  pages_trace limit page start (S m) =
  EvApply (Z.of_nat start * limit) limit :: EvCallback (page start)
    :: pages_trace limit page (S start) m.
Proof. reflexivity. Qed.

(** One turn of the loop on a page the callback accepts. *)
Lemma fetchLoop_turn fuel filter callback limit offset c w rows c' :
  apply filter offset limit = Resolved rows →
  rows ≠ [] →
  callback rows c = (Resolved tt, c') →
  fetchLoop (S fuel) filter callback limit offset c w =
  fetchLoop fuel filter callback limit (offset + limit) c'
    (mkWorld (ticks w) (trace w ++ [EvApply offset limit; EvCallback rows])).
Proof.
  intros Hp Hne Hcb. simpl. unfold filter_apply, invoke, record. rewrite Hp.
  destruct rows as [|row rows]; [congruence|]. simpl.
  rewrite Hcb. rewrite <- app_assoc. reflexivity.
Qed.

(** [k] turns on pages the callback accepts: [st j] is the consumer's state
    before page [j]. *)
Lemma fetchLoop_pages filter callback limit (page : nat → list Row) (st : nat → C)
    (k : nat) : ∀ fuel w,
  (∀ j : nat, (j < k)%nat →
     apply filter (Z.of_nat j * limit) limit = Resolved (page j) ∧ page j ≠ []) →
  (∀ j : nat, (j < k)%nat → callback (page j) (st j) = (Resolved tt, st (S j))) →
  fetchLoop (k + fuel) filter callback limit 0 (st 0%nat) w =
  fetchLoop fuel filter callback limit (Z.of_nat k * limit) (st k)
    (mkWorld (ticks w) (trace w ++ pages_trace limit page 0 k)).
Proof.
  induction k as [|k IH]; intros fuel w Hp Hcb.
  - simpl. destruct w as [t tr]. simpl.
    unfold pages_trace. simpl. rewrite app_nil_r. reflexivity.
  - replace (S k + fuel)%nat with (k + S fuel)%nat by lia.
    rewrite IH by (auto with lia).
    destruct (Hp k ltac:(lia)) as [Hpk Hne].
    rewrite (fetchLoop_turn _ _ _ _ _ _ _ (page k) (st (S k))); simpl; auto with lia.
    rewrite pages_trace_S. simpl. rewrite <- app_assoc.
    f_equal. lia.
Qed.

(** Every run of the loop, however it ends and however much fuel it had:
    [m] pages were handed over, and then the loop stopped at an empty page,
    at a rejection of the filter, at a rejection of the callback, or it ran
    out of fuel. *)
Lemma fetchLoop_shape filter callback limit : ∀ (fuel start : nat) c w,
  ∃ m : nat,
    (m ≤ fuel)%nat ∧
    (∀ j : nat, (start ≤ j < start + m)%nat →
       ∃ rows, apply filter (Z.of_nat j * limit) limit = Resolved rows ∧ rows ≠ []) ∧
    let run := fetchLoop fuel filter callback limit (Z.of_nat start * limit) c w in
    let handed := pages_trace limit (page_at filter limit) start m in
    let next := Z.of_nat (start + m) * limit in
    (result run = Some (Resolved tt) ∧ apply filter next limit = Resolved [] ∧
       trace (world run) = trace w ++ handed ++ [EvApply next limit])
    ∨ (∃ e, result run = Some (Rejected e) ∧ apply filter next limit = Rejected e ∧
       trace (world run) = trace w ++ handed ++ [EvApply next limit])
    ∨ (∃ e, result run = Some (Rejected e) ∧ (0 < m)%nat ∧
       trace (world run) = trace w ++ handed)
    ∨ (result run = None ∧ m = fuel ∧ trace (world run) = trace w ++ handed).
Proof.
  induction fuel as [|fuel IH]; intros start c w.
  - exists 0%nat. split; [lia|]. split; [intros j Hj; lia|].
    simpl. right. right. right. rewrite app_nil_r. auto.
  - simpl. unfold filter_apply, record. simpl.
    destruct (apply filter (Z.of_nat start * limit) limit) as [rows|e] eqn:Hp.
    + destruct rows as [|row rows]; simpl.
      * exists 0%nat. split; [lia|]. split; [intros j Hj; lia|].
        left. rewrite Nat.add_0_r. auto.
      * unfold invoke, record. simpl.
        destruct (callback (row :: rows) c) as [[[]|e] c2] eqn:Hcb.
        -- replace (Z.of_nat start * limit + limit)
             with (Z.of_nat (S start) * limit) by lia.
           rewrite <- app_assoc. simpl app.
           match goal with
           | |- context [fetchLoop fuel _ _ _ _ _ ?w2] =>
               destruct (IH (S start) c2 w2) as (m & Hm & Hne & Hrun)
           end.
           exists (S m). split; [lia|]. split.
           { intros j Hj. destruct (decide (j = start)) as [->|Hj'].
             - exists (row :: rows). split; [exact Hp | discriminate].
             - apply Hne. lia. }
           rewrite pages_trace_cons.
           replace (page_at filter limit start) with (row :: rows)
             by (unfold page_at; rewrite Hp; reflexivity).
           replace (start + S m)%nat with (S start + m)%nat by lia.
           cbv zeta in Hrun. cbv zeta. simpl trace in Hrun.
           destruct Hrun as [(Hr & Hq & Ht)|[(e & Hr & Hq & Ht)|[(e & Hr & Hq & Ht)|(Hr & Hq & Ht)]]];
             rewrite Ht, <- app_assoc; simpl app.
           ++ left. auto.
           ++ right. left. exists e. auto.
           ++ right. right. left. exists e. auto with lia.
           ++ right. right. right. auto with lia.
        -- exists 1%nat. split; [lia|]. split.
           { intros j Hj. assert (j = start) as -> by lia.
             exists (row :: rows). split; [exact Hp | discriminate]. }
           right. right. left. exists e. split; [reflexivity|]. split; [lia|].
           simpl. unfold pages_trace. simpl.
           unfold page_at. rewrite Hp. rewrite <- app_assoc. reflexivity.
    + exists 0%nat. split; [lia|]. split; [intros j Hj; lia|].
      right. left. exists e. rewrite Nat.add_0_r. auto.
Qed.

(** Every run of the loop, exactly: [m] pages were handed over and
    accepted, [st j] being the consumer's state before page [j]; then the
    loop met an empty page, or a rejection of the filter, or a rejection of
    the callback, or the fuel ended. *)
Lemma fetchLoop_runs filter callback limit : ∀ (fuel start : nat) c w,
  ∃ (m : nat) (st : nat → C),
    (m ≤ fuel)%nat ∧ st 0%nat = c ∧
    (∀ j : nat, (j < m)%nat →
       ∃ rows,
         apply filter (Z.of_nat (start + j) * limit) limit = Resolved rows ∧
         rows ≠ [] ∧
         callback rows (st j) = (Resolved tt, st (S j))) ∧
    let run := fetchLoop fuel filter callback limit (Z.of_nat start * limit) c w in
    let handed := pages_trace limit (page_at filter limit) start m in
    let next := Z.of_nat (start + m) * limit in
    (apply filter next limit = Resolved [] ∧ (m < fuel)%nat ∧
     run = mkRun (Some (Resolved tt)) (st m)
             (mkWorld (ticks w) (trace w ++ handed ++ [EvApply next limit])))
    ∨ (∃ e, apply filter next limit = Rejected e ∧ (m < fuel)%nat ∧
       run = mkRun (Some (Rejected e)) (st m)
               (mkWorld (ticks w) (trace w ++ handed ++ [EvApply next limit])))
    ∨ (∃ rows e c',
         apply filter next limit = Resolved rows ∧ rows ≠ [] ∧
         callback rows (st m) = (Rejected e, c') ∧ (m < fuel)%nat ∧
         run = mkRun (Some (Rejected e)) c'
                 (mkWorld (ticks w)
                    (trace w ++ handed ++ [EvApply next limit; EvCallback rows])))
    ∨ (m = fuel ∧
       run = mkRun None (st m) (mkWorld (ticks w) (trace w ++ handed))).
Proof.
  induction fuel as [|fuel IH]; intros start c w.
  - exists 0%nat, (λ _, c). split; [lia|]. split; [reflexivity|].
    split; [intros j Hj; lia|].
    cbv zeta. right. right. right. split; [reflexivity|].
    destruct w as [t tr]. simpl. rewrite app_nil_r. reflexivity.
  - cbv zeta. simpl fetchLoop. unfold filter_apply, record. simpl.
    destruct (apply filter (Z.of_nat start * limit) limit) as [rows|e] eqn:Hp.
    + destruct rows as [|row rows]; simpl.
      * exists 0%nat, (λ _, c). split; [lia|]. split; [reflexivity|].
        split; [intros j Hj; lia|].
        left. rewrite Nat.add_0_r. split; [exact Hp|]. split; [lia|]. reflexivity.
      * unfold invoke, record. simpl.
        destruct (callback (row :: rows) c) as [[[]|e] c2] eqn:Hcb.
        -- replace (Z.of_nat start * limit + limit)
             with (Z.of_nat (S start) * limit) by lia.
           rewrite <- app_assoc. simpl app.
           match goal with
           | |- context [fetchLoop fuel _ _ _ _ _ ?w2] =>
               destruct (IH (S start) c2 w2) as (m & st & Hm & Hst & Hok & Hrun)
           end.
           exists (S m), (λ j, match j with O => c | S j' => st j' end).
           split; [lia|]. split; [reflexivity|]. split.
           { intros [|j] Hj.
             - exists (row :: rows). rewrite Nat.add_0_r, Hst.
               split; [exact Hp|]. split; [discriminate | exact Hcb].
             - destruct (Hok j ltac:(lia)) as (rs & Hrs & Hne & Hacc).
               exists rs. replace (start + S j)%nat with (S start + j)%nat by lia.
               auto. }
           rewrite pages_trace_cons.
           replace (page_at filter limit start) with (row :: rows)
             by (unfold page_at; rewrite Hp; reflexivity).
           replace (start + S m)%nat with (S start + m)%nat by lia.
           cbv zeta in Hrun. simpl ticks in Hrun. simpl trace in Hrun.
           destruct Hrun as [(Hq & Hlt & Hr)|[(e & Hq & Hlt & Hr)|[(rs & e & c' & Hq & Hne & Hrej & Hlt & Hr)|(Heq & Hr)]]];
             rewrite Hr, <- !app_assoc; simpl app.
           ++ left. split; [exact Hq|]. split; [lia|]. reflexivity.
           ++ right. left. exists e. split; [exact Hq|]. split; [lia|]. reflexivity.
           ++ right. right. left. exists rs, e, c'.
              split; [exact Hq|]. split; [exact Hne|]. split; [exact Hrej|].
              split; [lia|]. reflexivity.
           ++ right. right. right. split; [lia|]. reflexivity.
        -- exists 0%nat, (λ _, c). split; [lia|]. split; [reflexivity|].
           split; [intros j Hj; lia|].
           right. right. left. exists (row :: rows), e, c2.
           rewrite Nat.add_0_r. split; [exact Hp|]. split; [discriminate|].
           split; [exact Hcb|]. split; [lia|].
           simpl. rewrite <- app_assoc. reflexivity.
    + exists 0%nat, (λ _, c). split; [lia|]. split; [reflexivity|].
      split; [intros j Hj; lia|].
      right. left. exists e. rewrite Nat.add_0_r.
      split; [exact Hp|]. split; [lia|]. reflexivity.
Qed.

(** C5.  Every run of [fetchEvents], exactly, for whatever filter and
    callback, and for a page size and a length of run whose offsets are
    integers that JavaScript adds exactly.  Some [m] pages were handed over
    and accepted: page [j] is what the filter answered at offset
    [j * limit] (the offsets follow each other as 0, [limit],
    [2 * limit], ...), it is non-empty, of any length, and the callback got
    it in the state the pages before left, before the next page was asked
    for.  After an accepted page the loop always goes on, at the offset
    advanced by [limit] and not by the number of rows.  It stops in three
    ways only: with success at the first empty page; with the filter's
    rejection; with the callback's rejection of the page just handed over.
    Otherwise it is still going on when the fuel ends. *)
Theorem fetchEvents_pages_in_offset_order fuel filter callback (limit : Z) c w :
  safe_integer (Z.of_nat fuel * limit) →
  ∃ (m : nat) (st : nat → C),
    (m ≤ fuel)%nat ∧ st 0%nat = c ∧
    (∀ j : nat, (j < m)%nat →
       ∃ rows,
         apply filter (Z.of_nat j * limit) limit = Resolved rows ∧
         rows ≠ [] ∧
         callback rows (st j) = (Resolved tt, st (S j))) ∧
    let run := fetchEvents fuel filter callback (Some limit) c w in
    let handed := pages_trace limit (page_at filter limit) 0 m in
    let next := Z.of_nat m * limit in
    (apply filter next limit = Resolved [] ∧ (m < fuel)%nat ∧
     run = mkRun (Some (Resolved tt)) (st m)
             (mkWorld (ticks w) (trace w ++ handed ++ [EvApply next limit])))
    ∨ (∃ e, apply filter next limit = Rejected e ∧ (m < fuel)%nat ∧
       run = mkRun (Some (Rejected e)) (st m)
               (mkWorld (ticks w) (trace w ++ handed ++ [EvApply next limit])))
    ∨ (∃ rows e c',
         apply filter next limit = Resolved rows ∧ rows ≠ [] ∧
         callback rows (st m) = (Rejected e, c') ∧ (m < fuel)%nat ∧
         run = mkRun (Some (Rejected e)) c'
                 (mkWorld (ticks w)
                    (trace w ++ handed ++ [EvApply next limit; EvCallback rows])))
    ∨ (m = fuel ∧
       run = mkRun None (st m) (mkWorld (ticks w) (trace w ++ handed))).
Proof.
  intros _.
  destruct (fetchLoop_runs filter callback limit fuel 0 c w)
    as (m & st & Hm & Hst & Hok & Hrun).
  exists m, st. split; [exact Hm|]. split; [exact Hst|]. split.
  - intros j Hj. apply (Hok j Hj).
  - exact Hrun.
Qed.


(** C7.  If the callback rejects page [j] (after accepting the pages before
    it), [fetchEvents] rejects with the callback's own reason, and the trace
    ends with that invocation: the filter is not applied for page [j + 1]
    and the callback is not invoked again. *)
Theorem fetchEvents_callback_failure fuel filter callback (limit : Z)
    (page : nat → list Row) (st : nat → C) (j : nat) (e : Thrown) (c' : C) w :
  (j < fuel)%nat →
  (∀ i : nat, (i ≤ j)%nat →
     apply filter (Z.of_nat i * limit) limit = Resolved (page i) ∧ page i ≠ []) →
  (∀ i : nat, (i < j)%nat → callback (page i) (st i) = (Resolved tt, st (S i))) →
  callback (page j) (st j) = (Rejected e, c') →
  fetchEvents fuel filter callback (Some limit) (st 0%nat) w =
  mkRun (Some (Rejected e)) c'
    (mkWorld (ticks w) (trace w ++ pages_trace limit page 0 (S j))).
Proof.
  intros Hfuel Hp Hok Hfail.
  unfold fetchEvents. simpl default.
  replace fuel with (j + S (fuel - S j))%nat by lia.
  rewrite (fetchLoop_pages filter callback limit page st j) by (auto with lia).
  destruct (Hp j ltac:(lia)) as [Hpj Hne].
  rewrite pages_trace_S.
  simpl. unfold filter_apply, invoke, record. simpl. rewrite Hpj.
  destruct (page j) as [|row rows] eqn:Hrows; [congruence|]. simpl.
  rewrite Hfail. rewrite <- !app_assoc. reflexivity.
Qed.

Lemma count_app (p : Event → bool) (tr1 tr2 : list Event) :
  count p (tr1 ++ tr2) = (count p tr1 + count p tr2)%nat.
Proof. unfold count. rewrite List.filter_app, length_app. reflexivity. Qed.

Lemma count_apply_pages_trace limit page (m : nat) : ∀ start,
  count is_apply (pages_trace limit page start m) = m.
Proof.
  induction m as [|m IH]; intros start; [reflexivity|].
  rewrite pages_trace_cons. unfold count in *. simpl. rewrite IH. reflexivity.
Qed.

Lemma count_callback_pages_trace limit page (m : nat) : ∀ start,
  count is_callback (pages_trace limit page start m) = m.
Proof.
  induction m as [|m IH]; intros start; [reflexivity|].
  rewrite pages_trace_cons. unfold count in *. simpl. rewrite IH. reflexivity.
Qed.

(** C8, amended.  If the filter answers with non-empty pages at the offsets
    [0], [limit], ..., [(k - 1) * limit] and with an empty page at
    [k * limit], and the callback accepts each of those [k] pages, then
    [fetchEvents] resolves after exactly [k + 1] applications of the
    filter. *)
Theorem fetchEvents_applications fuel filter callback (limit : Z)
    (page : nat → list Row) (st : nat → C) (k : nat) w :
  (k < fuel)%nat →
  (∀ j : nat, (j < k)%nat →
     apply filter (Z.of_nat j * limit) limit = Resolved (page j) ∧ page j ≠ []) →
  apply filter (Z.of_nat k * limit) limit = Resolved [] →
  (∀ j : nat, (j < k)%nat → callback (page j) (st j) = (Resolved tt, st (S j))) →
  let run := fetchEvents fuel filter callback (Some limit) (st 0%nat) w in
  result run = Some (Resolved tt) ∧
  count is_apply (trace (world run)) = (count is_apply (trace w) + (k + 1))%nat.
Proof.
  intros Hfuel Hp Hend Hok. cbv zeta.
  unfold fetchEvents. simpl default.
  replace fuel with (k + S (fuel - S k))%nat by lia.
  rewrite (fetchLoop_pages filter callback limit page st k) by (auto with lia).
  simpl. unfold filter_apply, record. simpl. rewrite Hend. simpl.
  split; [reflexivity|].
  rewrite !count_app, count_apply_pages_trace.
  change (count is_apply [EvApply (Z.of_nat k * limit) limit]) with 1%nat. lia.
Qed.

(** The callback never sees an empty page, from whatever offset the loop
    starts. *)
Lemma fetchLoop_callback_rows filter callback limit : ∀ (fuel : nat) offset c w,
  ∃ tr : list Event,
    trace (world (fetchLoop fuel filter callback limit offset c w)) = trace w ++ tr ∧
    ∀ rows, EvCallback rows ∈ tr → rows ≠ [].
Proof.
  induction fuel as [|fuel IH]; intros offset c w.
  - exists []. simpl. rewrite app_nil_r. split; [reflexivity|].
    intros rows Hin. inversion Hin.
  - simpl. unfold filter_apply, record. simpl.
    destruct (apply filter offset limit) as [[|row rows]|e]; simpl.
    + exists [EvApply offset limit]. split; [reflexivity|].
      intros rows Hin. apply list_elem_of_singleton in Hin. discriminate.
    + unfold invoke, record. simpl.
      destruct (callback (row :: rows) c) as [[[]|e] c2].
      * match goal with
        | |- context [fetchLoop fuel _ _ _ ?o _ ?w2] =>
            destruct (IH o c2 w2) as (tr & Htr & Hne)
        end.
        exists (EvApply offset limit :: EvCallback (row :: rows) :: tr).
        split.
        -- rewrite Htr. simpl. rewrite <- !app_assoc. reflexivity.
        -- intros rows' Hin.
           apply elem_of_cons in Hin as [Hin|Hin]; [discriminate|].
           apply elem_of_cons in Hin as [Hin|Hin]; [|auto].
           injection Hin as ->. discriminate.
      * exists [EvApply offset limit; EvCallback (row :: rows)].
        split; [simpl; rewrite <- !app_assoc; reflexivity|].
        intros rows' Hin.
        apply elem_of_cons in Hin as [Hin|Hin]; [discriminate|].
        apply list_elem_of_singleton in Hin. injection Hin as ->. discriminate.
    + exists [EvApply offset limit]. split; [reflexivity|].
      intros rows Hin. apply list_elem_of_singleton in Hin. discriminate.
Qed.

(** C10.  Whatever the filter, the callback and the page size (the default
    included), every invocation of the callback that [fetchEvents] makes
    gets a non-empty page. *)
Theorem fetchEvents_callback_never_empty fuel filter callback (limit : option Z) c w :
  ∃ tr : list Event,
    trace (world (fetchEvents fuel filter callback limit c w)) = trace w ++ tr ∧
    ∀ rows, EvCallback rows ∈ tr → rows ≠ [].
Proof.
  unfold fetchEvents. apply fetchLoop_callback_rows.
Qed.

End FetchEvents.

(** ** Properties of [getContract] *)

Section GetContract.
Context `{ConnexTypes}.
Variable connex : Connex.

(** What the defined methods do when called. *)
Lemma defineConstant_call address method args (w : World) :
  defineConstant connex address method args w =
  (match thor_call connex address method args with
   | Resolved res => Resolved (decoded res)
   | Rejected e => Rejected e
   end,
   mkWorld (ticks w) (trace w ++ [EvCall address method args])).
Proof.
  unfold defineConstant, bind, call, ret, record.
  destruct (thor_call connex address method args); reflexivity.
Qed.

Lemma defineClause_call address method args (w : World) :
  defineClause connex address method args w =
  (thor_asClause connex address method args,
   mkWorld (ticks w) (trace w ++ [EvAsClause address method args])).
Proof. reflexivity. Qed.

Lemma defineSignedRequest_call address method args comment (w : World) :
  defineSignedRequest connex address method args comment w =
  match thor_asClause connex address method args with
  | Resolved c =>
      let service :=
        match comment with
        | Some text => service_comment connex (vendor_sign_tx connex [c]) text
        | None => vendor_sign_tx connex [c]
        end in
      (service_request connex service,
       mkWorld (ticks w)
         (trace w ++ [EvAsClause address method args; EvRequest service]))
  | Rejected e =>
      (Rejected e, mkWorld (ticks w) (trace w ++ [EvAsClause address method args]))
  end.
Proof.
  unfold defineSignedRequest, bind, asClause, request, record.
  destruct (thor_asClause connex address method args); [|reflexivity].
  destruct comment; simpl; rewrite <- app_assoc; reflexivity.
Qed.

(** The loop over the ABI, one descriptor at the end. *)
Lemma getContract_snoc abi item address :
  getContract connex (abi ++ [item]) address =
  addItem connex address (getContract connex abi address) item.
Proof. unfold getContract. rewrite fold_left_app. reflexivity. Qed.

Lemma last_filter_snoc (P : AbiItem → Prop) `{!∀ x, Decision (P x)}
    (abi : list AbiItem) (item : AbiItem) :
  last (filter P (abi ++ [item])) =
  if decide (P item) then Some item else last (filter P abi).
Proof.
  rewrite filter_app, filter_cons, filter_nil.
  destruct (decide (P item)).
  - rewrite last_snoc. reflexivity.
  - rewrite app_nil_r. reflexivity.
Qed.


Lemma addItem_constant address contract item n :
  constant (methods (addItem connex address contract item)) !! n =
  if decide (constant_named n item) then Some (defineConstant connex address item)
  else constant (methods contract) !! n.
Proof. settle_addItem. Qed.

Lemma addItem_signed address contract item n :
  signed (methods (addItem connex address contract item)) !! n =
  if decide (mutating_named n item)
  then Some (defineSignedRequest connex address item)
  else signed (methods contract) !! n.
Proof. settle_addItem. Qed.

Lemma addItem_clause address contract item n :
  clause (methods (addItem connex address contract item)) !! n =
  if decide (mutating_named n item) then Some (defineClause connex address item)
  else clause (methods contract) !! n.
Proof. settle_addItem. Qed.

Lemma addItem_events address contract item n :
  events (addItem connex address contract item) !! n =
  if decide (event_named n item) then Some (thor_event connex address item)
  else events contract !! n.
Proof. settle_addItem. Qed.

(** C9, amended.  For an ABI that names no descriptor ["__proto__"], the
    tables of [getContract abi address], name by name.  The table of
    constant methods holds, under [n], the method made from the last
    descriptor named [n] that is a function with state mutability [view];
    the tables of signed methods and of clauses hold the methods made from
    the last descriptor named [n] that is a function with any other state
    mutability (or none); the table of events holds the event made from the
    last descriptor named [n] that is an event.  Nothing else is in a
    table: a view function is in the constant table only, any other
    function in the signed and clause tables only, a descriptor without a
    name, or of another type, in none; and a descriptor that a later one of
    the same name and kind follows is in none either.  What the methods do:
    a constant method makes one call and settles with its decoded output; a
    signed method builds the clause and requests a signature for it, with
    the comment when one is given, and requests nothing when building the
    clause throws; a clause method builds the clause and nothing else. *)
Theorem getContract_tables (abi : list AbiItem) (address : Address) (n : string) :
  plain_names abi →
  let contract := getContract connex abi address in
  (constant (methods contract) !! n =
     defineConstant connex address <$> last (filter (constant_named n) abi)
   ∧ signed (methods contract) !! n =
     defineSignedRequest connex address <$> last (filter (mutating_named n) abi)
   ∧ clause (methods contract) !! n =
     defineClause connex address <$> last (filter (mutating_named n) abi)
   ∧ events contract !! n =
     thor_event connex address <$> last (filter (event_named n) abi))
  ∧ (∀ (item : AbiItem) (args : list Arg) (w : World),
       defineConstant connex address item args w =
       (match thor_call connex address item args with
        | Resolved res => Resolved (decoded res)
        | Rejected e => Rejected e
        end,
        mkWorld (ticks w) (trace w ++ [EvCall address item args])))
  ∧ (∀ (item : AbiItem) (args : list Arg) (comment : option string) (w : World),
       defineSignedRequest connex address item args comment w =
       match thor_asClause connex address item args with
       | Resolved c =>
           let service :=
             match comment with
             | Some text => service_comment connex (vendor_sign_tx connex [c]) text
             | None => vendor_sign_tx connex [c]
             end in
           (service_request connex service,
            mkWorld (ticks w)
              (trace w ++ [EvAsClause address item args; EvRequest service]))
       | Rejected e =>
           (Rejected e,
            mkWorld (ticks w) (trace w ++ [EvAsClause address item args]))
       end)
  ∧ (∀ (item : AbiItem) (args : list Arg) (w : World),
       defineClause connex address item args w =
       (thor_asClause connex address item args,
        mkWorld (ticks w) (trace w ++ [EvAsClause address item args]))).
Proof.
  intros _. cbv zeta. split; [|split; [|split]].
  - induction abi as [|item abi IH] using rev_ind.
    + unfold getContract. simpl. rewrite !lookup_empty. auto.
    + destruct IH as (IHc & IHs & IHl & IHe).
      rewrite getContract_snoc, !last_filter_snoc.
      rewrite addItem_constant, addItem_signed, addItem_clause, addItem_events.
      rewrite IHc, IHs, IHl, IHe.
      repeat split; case_decide; reflexivity.
  - intros item args w. apply defineConstant_call.
  - intros item args comment w. apply defineSignedRequest_call.
  - intros item args w. apply defineClause_call.
Qed.

End GetContract.

(** ** The theorems at work on the sample collaborators *)

#[local] Existing Instance Sample.types.

(** Budget 5, no receipt on ticks 1 to 5: five ticks, then "not found". *)
Lemma waitForReceipt_not_found_witness :
  waitForReceipt (Sample.chain 0 None) "0x5a" (Some 5) Sample.genesis =
  (Rejected NotFound, mkWorld 5 (EvTicker :: polls "0x5a" 5)).
Proof.
  apply (waitForReceipt_not_found (Sample.chain 0 None) "0x5a" 5 Sample.genesis).
  - lia.
  - intros j Hj. reflexivity.
Defined.

(** Budget 5, receipt reverted on tick 2: two ticks, then "reverted". *)
Lemma waitForReceipt_reverted_witness :
  waitForReceipt (Sample.chain 2 (Some ("0x5a", true))) "0x5a" (Some 5)
    Sample.genesis =
  (Rejected Reverted, mkWorld 2 (EvTicker :: polls "0x5a" 2)).
Proof.
  apply (waitForReceipt_reverted (Sample.chain 2 (Some ("0x5a", true))) "0x5a"
           5 2 ("0x5a", true) Sample.genesis).
  - lia.
  - intros j Hj. assert (j = 1)%nat as -> by lia. reflexivity.
  - reflexivity.
  - reflexivity.
Defined.

(** Budget 5, receipt confirmed on tick 3: three ticks, then the receipt. *)
Lemma waitForReceipt_confirmed_witness :
  waitForReceipt (Sample.chain 3 (Some ("0x5a", false))) "0x5a" (Some 5)
    Sample.genesis =
  (Resolved ("0x5a", false), mkWorld 3 (EvTicker :: polls "0x5a" 3)).
Proof.
  apply (waitForReceipt_confirmed (Sample.chain 3 (Some ("0x5a", false))) "0x5a"
           5 3 ("0x5a", false) Sample.genesis).
  - lia.
  - intros j Hj. assert (j = 1 ∨ j = 2)%nat as [-> | ->] by lia; reflexivity.
  - reflexivity.
  - reflexivity.
Defined.

(** The default budget is 5. *)
Example waitForReceipt_default_budget :
  waitForReceipt (Sample.chain 0 None) "0x5a" None Sample.genesis =
  (Rejected NotFound, mkWorld 5 (EvTicker :: polls "0x5a" 5)).
Proof. reflexivity. Qed.

(** Every run of five turns at most over a log of 27 rows in pages of 20,
    with the consumer that keeps the rows. *)
Lemma fetchEvents_pages_in_offset_order_witness :
  let filter := Sample.log_filter (seq 0 27) in
  ∃ (m : nat) (st : nat → list nat),
    (m ≤ 5)%nat ∧ st 0%nat = [] ∧
    (∀ j : nat, (j < m)%nat →
       ∃ rows,
         apply filter (Z.of_nat j * 20) 20 = Resolved rows ∧
         rows ≠ [] ∧
         Sample.collect rows (st j) = (Resolved tt, st (S j))) ∧
    let run := fetchEvents 5 filter Sample.collect (Some 20) [] Sample.genesis in
    let handed := pages_trace 20 (page_at filter 20) 0 m in
    let next := Z.of_nat m * 20 in
    (apply filter next 20 = Resolved [] ∧ (m < 5)%nat ∧
     run = mkRun (Some (Resolved tt)) (st m)
             (mkWorld (ticks Sample.genesis)
                (trace Sample.genesis ++ handed ++ [EvApply next 20])))
    ∨ (∃ e, apply filter next 20 = Rejected e ∧ (m < 5)%nat ∧
       run = mkRun (Some (Rejected e)) (st m)
               (mkWorld (ticks Sample.genesis)
                  (trace Sample.genesis ++ handed ++ [EvApply next 20])))
    ∨ (∃ rows e c',
         apply filter next 20 = Resolved rows ∧ rows ≠ [] ∧
         Sample.collect rows (st m) = (Rejected e, c') ∧ (m < 5)%nat ∧
         run = mkRun (Some (Rejected e)) c'
                 (mkWorld (ticks Sample.genesis)
                    (trace Sample.genesis ++ handed ++
                     [EvApply next 20; EvCallback rows])))
    ∨ (m = 5%nat ∧
       run = mkRun None (st m)
               (mkWorld (ticks Sample.genesis) (trace Sample.genesis ++ handed))).
Proof.
  apply (fetchEvents_pages_in_offset_order 5 (Sample.log_filter (seq 0 27))
           Sample.collect 20 [] Sample.genesis).
  unfold safe_integer, MAX_SAFE_INTEGER. simpl. lia.
Defined.


(** A log of 27 rows in pages of 20, and a consumer that rejects the page
    numbered 1: the run ends with that page, the third is never asked for. *)
Lemma fetchEvents_callback_failure_witness :
  fetchEvents 5 (Sample.log_filter (seq 0 27)) (Sample.refuse_page 1) (Some 20)
    0%nat Sample.genesis =
  mkRun (Some (Rejected (JsError "consumer failed"))) 1%nat
    (mkWorld 0 [EvApply 0 20; EvCallback (seq 0 20);
                EvApply 20 20; EvCallback (seq 20 7)]).
Proof.
  apply (fetchEvents_callback_failure 5 (Sample.log_filter (seq 0 27))
           (Sample.refuse_page 1) 20
           (page_at (Sample.log_filter (seq 0 27)) 20) (λ j, j) 1
           (JsError "consumer failed") 1%nat Sample.genesis).
  - lia.
  - intros i Hi. assert (i = 0 ∨ i = 1)%nat as [-> | ->] by lia;
      (split; [reflexivity | discriminate]).
  - intros i Hi. assert (i = 0)%nat as -> by lia. reflexivity.
  - reflexivity.
Defined.

(** Pages of 20, 7 and 0 rows: the consumer gets two pages and the filter is
    applied three times. *)
Lemma fetchEvents_applications_witness :
  let run := fetchEvents 3 (Sample.log_filter (seq 0 27)) Sample.collect (Some 20)
               [] Sample.genesis in
  result run = Some (Resolved tt) ∧
  count is_apply (trace (world run)) = 3%nat.
Proof.
  apply (fetchEvents_applications 3 (Sample.log_filter (seq 0 27)) Sample.collect 20
           (page_at (Sample.log_filter (seq 0 27)) 20)
           (λ j, take (20 * j) (seq 0 27)) 2 Sample.genesis).
  - lia.
  - intros j Hj. assert (j = 0 ∨ j = 1)%nat as [-> | ->] by lia;
      (split; [reflexivity | discriminate]).
  - reflexivity.
  - intros j Hj. assert (j = 0 ∨ j = 1)%nat as [-> | ->] by lia; reflexivity.
Defined.

(** The same run, event by event: offsets 0, 20 and 40, whatever the length
    of the pages. *)
Example fetchEvents_three_pages :
  fetchEvents 10 (Sample.log_filter (seq 0 27)) Sample.collect (Some 20)
    [] Sample.genesis =
  mkRun (Some (Resolved tt)) (seq 0 27)
    (mkWorld 0 [EvApply 0 20; EvCallback (seq 0 20);
                EvApply 20 20; EvCallback (seq 20 7);
                EvApply 40 20]).
Proof. reflexivity. Qed.

(** C8 as stated does not hold: a filter with one non-empty page and then
    an empty one ([k = 1]), and a consumer that rejects.  The run ends with
    the rejection after one application of the filter, and no amount of
    fuel makes it two. *)
Lemma fetchEvents_applications_counterexample :
  let filter := Sample.log_filter [7%nat] in
  let run fuel := fetchEvents fuel filter Sample.refuse (Some 20) tt Sample.genesis in
  apply filter (Z.of_nat 1 * 20) 20 = Resolved []
  ∧ (∀ j : nat, (j < 1)%nat →
       ∃ rows, apply filter (Z.of_nat j * 20) 20 = Resolved rows ∧ rows ≠ [])
  ∧ (∀ fuel : nat, (0 < fuel)%nat →
       result (run fuel) = Some (Rejected (JsError "consumer failed")) ∧
       count is_apply (trace (world (run fuel))) = 1%nat)
  ∧ (∀ fuel : nat, count is_apply (trace (world (run fuel))) ≠ (1 + 1)%nat).
Proof.
  cbv zeta. split; [reflexivity|]. split.
  - intros j Hj. assert (j = 0)%nat as -> by lia.
    exists [7%nat]. split; [reflexivity | discriminate].
  - split.
    + intros [|fuel] Hfuel; [lia|]. split; reflexivity.
    + intros [|fuel]; [discriminate|]. discriminate.
Qed.

(** An ERC-20 like ABI: the view function is a constant method only, the
    other functions are signed methods and clauses, the event is an event,
    and the descriptors without a name are nowhere. *)
Example getContract_erc20 :
  let contract := getContract (Sample.chain 0 None) Sample.erc20 "0xc0de" in
  dom (constant (methods contract)) = ({["balanceOf"]} : gset string)
  ∧ dom (signed (methods contract)) = ({["transfer"; "decimals"]} : gset string)
  ∧ dom (clause (methods contract)) = ({["transfer"; "decimals"]} : gset string)
  ∧ dom (events contract) = ({["Transfer"]} : gset string)
  ∧ getAddress contract tt = "0xc0de".
Proof. cbv zeta. repeat split; vm_compute; reflexivity. Qed.

(** ** More on [waitForReceipt]: every run, rejections of the chain, budgets *)

Section WaitForReceiptRuns.
Context `{ConnexTypes}.
Variable connex : Connex.

Lemma after_polls_step txId (k : nat) (w : World) :
  after_polls txId k
    (mkWorld (S (ticks w)) ((trace w ++ [EvNext]) ++ [EvGetReceipt txId])) =
  after_polls txId (S k) w.
Proof.
  unfold after_polls. simpl. f_equal; [lia|].
  rewrite <- !app_assoc. reflexivity.
Qed.

Lemma polls_snoc txId (k : nat) :
  polls txId k ++ [EvNext; EvGetReceipt txId] = polls txId (S k).
Proof.
  induction k as [|k IH]; simpl; [reflexivity|].
  simpl in IH. rewrite IH. reflexivity.
Qed.

(** The three ways the loop can end when [n] turns are left: the budget runs
    out, a receipt shows up, or the receipt query rejects. *)
Lemma waitLoop_cases txId iterations : ∀ (n : nat) i (w : World),
  Z.to_nat (iterations - i) = n →
  let run := waitLoop connex txId iterations i w in
  ((∀ j : nat, (1 ≤ j ≤ n)%nat →
      thor_getReceipt connex txId (ticks w + j)%nat = Resolved None) ∧
   run = (Rejected NotFound, after_polls txId n w))
  ∨ (∃ (k : nat) (r : Receipt), (1 ≤ k ≤ n)%nat ∧
      (∀ j : nat, (1 ≤ j < k)%nat →
         thor_getReceipt connex txId (ticks w + j)%nat = Resolved None) ∧
      thor_getReceipt connex txId (ticks w + k)%nat = Resolved (Some r) ∧
      run = (if reverted r then Rejected Reverted else Resolved r,
             after_polls txId k w))
  ∨ (∃ (k : nat) (e : Thrown), (1 ≤ k ≤ n)%nat ∧
      (∀ j : nat, (1 ≤ j < k)%nat →
         thor_getReceipt connex txId (ticks w + j)%nat = Resolved None) ∧
      thor_getReceipt connex txId (ticks w + k)%nat = Rejected e ∧
      run = (Rejected e, after_polls txId k w)).
Proof.
  induction n as [|n IH]; intros i w Hn; cbv zeta; rewrite waitLoop_eq.
  - destruct (Z_ge_lt_dec i iterations) as [Hge|Hlt]; [|lia].
    left. split; [intros j Hj; lia|]. rewrite after_polls_0. reflexivity.
  - destruct (Z_ge_lt_dec i iterations) as [Hge|Hlt]; [lia|].
    unfold bind, ticker_next, getReceipt, record. simpl.
    destruct (thor_getReceipt connex txId (S (ticks w))) as [[r|]|e] eqn:Hq.
    + right. left. exists 1%nat, r. split; [lia|]. split; [intros j Hj; lia|].
      rewrite Nat.add_1_r. split; [exact Hq|].
      rewrite <- (after_polls_step txId 0 w), after_polls_0.
      unfold throw, ret. destruct (reverted r); reflexivity.
    + match goal with
      | |- context [waitLoop connex txId iterations (i + 1) ?w2] =>
          destruct (IH (i + 1) w2 ltac:(lia)) as [(Habs & Hrun)|[(k & r & Hk & Habs & Hr & Hrun)|(k & e & Hk & Habs & Hr & Hrun)]];
          rewrite Hrun, after_polls_step; simpl in Habs
      end.
      * left. split; [|reflexivity].
        intros j Hj. destruct (decide (j = 1%nat)) as [->|Hj1].
        -- rewrite Nat.add_1_r. exact Hq.
        -- specialize (Habs (j - 1)%nat ltac:(lia)).
           rewrite <- Habs. f_equal. lia.
      * right. left. exists (S k), r. split; [lia|]. split; [|split].
        -- intros j Hj. destruct (decide (j = 1%nat)) as [->|Hj1].
           ++ rewrite Nat.add_1_r. exact Hq.
           ++ specialize (Habs (j - 1)%nat ltac:(lia)).
              rewrite <- Habs. f_equal. lia.
        -- simpl in Hr. rewrite <- Hr. f_equal. lia.
        -- reflexivity.
      * right. right. exists (S k), e. split; [lia|]. split; [|split].
        -- intros j Hj. destruct (decide (j = 1%nat)) as [->|Hj1].
           ++ rewrite Nat.add_1_r. exact Hq.
           ++ specialize (Habs (j - 1)%nat ltac:(lia)).
              rewrite <- Habs. f_equal. lia.
        -- simpl in Hr. rewrite <- Hr. f_equal. lia.
        -- reflexivity.
    + right. right. exists 1%nat, e. split; [lia|]. split; [intros j Hj; lia|].
      rewrite Nat.add_1_r. split; [exact Hq|].
      rewrite <- (after_polls_step txId 0 w), after_polls_0. reflexivity.
Qed.

(** The turn on which the receipt query rejects ends the loop. *)
Lemma waitLoop_rejected txId iterations (k : nat) (e : Thrown) i (w : World) :
  (1 ≤ k)%nat →
  i + Z.of_nat k ≤ iterations →
  (∀ j : nat, (1 ≤ j < k)%nat →
     thor_getReceipt connex txId (ticks w + j)%nat = Resolved None) →
  thor_getReceipt connex txId (ticks w + k)%nat = Rejected e →
  waitLoop connex txId iterations i w = (Rejected e, after_polls txId k w).
Proof.
  intros Hk Hle Habs Hr.
  destruct k as [|k]; [lia|].
  rewrite (waitLoop_absent connex txId iterations k i w)
    by (intros; try apply Habs; lia).
  rewrite waitLoop_eq.
  destruct (Z_ge_lt_dec (i + Z.of_nat k) iterations) as [Hge|Hlt]; [lia|].
  unfold bind, ticker_next, getReceipt, record, after_polls. simpl.
  replace (S (ticks w + k)) with (ticks w + S k)%nat by lia.
  rewrite Hr.
  rewrite <- !app_assoc. simpl. rewrite polls_snoc. reflexivity.
Qed.

(** X1.  A budget of zero or less: the first test [i >= iterations] already
    holds, so [waitForReceipt] rejects with "Transaction not found." without
    a tick and without a query. *)
Theorem waitForReceipt_non_positive_budget txId (iterations : Z) (w : World) :
  iterations ≤ 0 →
  waitForReceipt connex txId (Some iterations) w =
  (Rejected NotFound, mkWorld (ticks w) (trace w ++ [EvTicker])).
Proof.
  intros Hle. unfold waitForReceipt, bind, getTicker. simpl.
  rewrite waitLoop_eq.
  destruct (Z_ge_lt_dec 0 iterations) as [_|Hlt]; [reflexivity|lia].
Qed.

(** X2.  A rejection of the receipt query is not caught: if the query first
    rejects on tick [k ≤ N], with no receipt before, [waitForReceipt]
    rejects with the query's own reason after exactly [k] ticks. *)
Theorem waitForReceipt_query_rejected txId (N k : nat) (e : Thrown) (w : World) :
  (1 ≤ k ≤ N)%nat →
  (∀ j : nat, (1 ≤ j < k)%nat →
     thor_getReceipt connex txId (ticks w + j)%nat = Resolved None) →
  thor_getReceipt connex txId (ticks w + k)%nat = Rejected e →
  waitForReceipt connex txId (Some (Z.of_nat N)) w =
  (Rejected e, mkWorld (ticks w + k)%nat (trace w ++ EvTicker :: polls txId k)).
Proof.
  intros Hk Habs Hr.
  unfold waitForReceipt, bind, getTicker. simpl.
  rewrite (waitLoop_rejected txId (Z.of_nat N) k e 0 (record EvTicker w))
    by (simpl; auto; lia).
  unfold after_polls, record. simpl. rewrite <- app_assoc. reflexivity.
Qed.

(** X4.  A receipt that [waitForReceipt] resolves with is not reverted, and
    it is the receipt the chain answered with on the last tick taken; at
    least one tick was taken. *)
Theorem waitForReceipt_resolved_receipt txId (iterations : option Z)
    (r : Receipt) (w w' : World) :
  waitForReceipt connex txId iterations w = (Resolved r, w') →
  reverted r = false ∧
  thor_getReceipt connex txId (ticks w') = Resolved (Some r) ∧
  (ticks w < ticks w')%nat.
Proof.
  unfold waitForReceipt, bind, getTicker. simpl.
  set (budget := default 5 iterations).
  destruct (waitLoop_cases txId budget (Z.to_nat budget) 0 (record EvTicker w)
              ltac:(f_equal; lia))
    as [(_ & Hrun)|[(k & r0 & Hk & _ & Hr & Hrun)|(k & e & Hk & _ & _ & Hrun)]];
    rewrite Hrun; intros Heq; try discriminate.
  destruct (reverted r0) eqn:Hrev; [discriminate|].
  injection Heq as -> <-. simpl in *. auto with lia.
Qed.

(** X5.  A larger budget does not change an outcome that the budget did not
    cause: if [waitForReceipt] with budget [N] settles otherwise than with
    "Transaction not found.", it settles the same way, in the same world,
    with every budget [N' ≥ N]. *)
Theorem waitForReceipt_larger_budget txId (N N' : Z)
    (outcome : Outcome Receipt) (w w' : World) :
  waitForReceipt connex txId (Some N) w = (outcome, w') →
  outcome ≠ Rejected NotFound →
  N ≤ N' →
  waitForReceipt connex txId (Some N') w = (outcome, w').
Proof.
  unfold waitForReceipt, bind, getTicker. simpl.
  intros Hrun Hout HN.
  destruct (waitLoop_cases txId N (Z.to_nat N) 0 (record EvTicker w)
              ltac:(f_equal; lia))
    as [(_ & Hrun')|[(k & r & Hk & Habs & Hr & Hrun')|(k & e & Hk & Habs & Hr & Hrun')]];
    rewrite Hrun' in Hrun.
  - injection Hrun as <- _. congruence.
  - rewrite (waitLoop_found connex txId N' k r 0 (record EvTicker w))
      by (auto; lia).
    exact Hrun.
  - rewrite (waitLoop_rejected txId N' k e 0 (record EvTicker w))
      by (auto; lia).
    exact Hrun.
Qed.

(** The outcome of the loop and the ticks it takes depend on the turns left
    and on the tick the world is at, not on the trace so far. *)
Lemma waitLoop_shift txId : ∀ (n : nat) iterations i iterations' i' (w w' : World),
  Z.to_nat (iterations - i) = n →
  Z.to_nat (iterations' - i') = n →
  ticks w = ticks w' →
  (waitLoop connex txId iterations i w).1 = (waitLoop connex txId iterations' i' w').1 ∧
  ticks (waitLoop connex txId iterations i w).2 =
  ticks (waitLoop connex txId iterations' i' w').2.
Proof.
  induction n as [|n IH]; intros it i it' i' w w' Hn Hn' Ht;
    rewrite (waitLoop_eq connex txId it), (waitLoop_eq connex txId it').
  - destruct (Z_ge_lt_dec i it); [|lia]. destruct (Z_ge_lt_dec i' it'); [|lia].
    simpl. auto.
  - destruct (Z_ge_lt_dec i it); [lia|]. destruct (Z_ge_lt_dec i' it'); [lia|].
    unfold bind, ticker_next, getReceipt, record. simpl. rewrite <- Ht.
    destruct (thor_getReceipt connex txId (S (ticks w))) as [[r|]|e]; simpl.
    + unfold throw, ret. destruct (reverted r); simpl; auto.
    + apply IH; simpl; lia.
    + auto.
Qed.

(** X6.  Retrying continues the wait: when no receipt shows up on the first
    [N] ticks, a call with budget [N] followed by a call with budget [M]
    settles as one call with budget [N + M] does, after the same number of
    ticks. *)
Theorem waitForReceipt_retry txId (N M : nat) (w : World) :
  (∀ j : nat, (1 ≤ j ≤ N)%nat →
     thor_getReceipt connex txId (ticks w + j)%nat = Resolved None) →
  let first := waitForReceipt connex txId (Some (Z.of_nat N)) w in
  let second := waitForReceipt connex txId (Some (Z.of_nat M)) first.2 in
  let single := waitForReceipt connex txId (Some (Z.of_nat (N + M))) w in
  first.1 = Rejected NotFound ∧
  second.1 = single.1 ∧
  ticks second.2 = ticks single.2.
Proof.
  intros Habs. cbv zeta.
  unfold waitForReceipt, bind, getTicker. simpl.
  rewrite (waitLoop_absent connex txId (Z.of_nat N) N 0 (record EvTicker w))
    by (simpl; auto; lia).
  rewrite (waitLoop_eq connex txId (Z.of_nat N) (0 + Z.of_nat N)).
  destruct (Z_ge_lt_dec (0 + Z.of_nat N) (Z.of_nat N)) as [_|Hlt]; [|lia].
  simpl. split; [reflexivity|].
  rewrite (waitLoop_absent connex txId (Z.of_nat (N + M)) N 0 (record EvTicker w))
    by (simpl; auto; lia).
  apply (waitLoop_shift txId M); simpl; lia.
Qed.

End WaitForReceiptRuns.

(** ** More on [fetchEvents]: rejections of the filter, whole runs, runs
    without end *)

Section FetchEventsRuns.
Context `{ConnexTypes} {C : Type}.
Implicit Types (filter : Filter) (callback : Callback C) (c : C) (w : World).

(** X7.  A rejection of the filter is not caught: if the filter rejects the
    application for page [j] (the pages before it were handed over and
    accepted), [fetchEvents] rejects with the filter's own reason; the
    callback is not invoked for that page and the consumer's state is the
    one the first [j] pages left. *)
Theorem fetchEvents_filter_rejected fuel filter callback (limit : Z)
    (page : nat → list Row) (st : nat → C) (j : nat) (e : Thrown) w :
  (j < fuel)%nat →
  (∀ i : nat, (i < j)%nat →
     apply filter (Z.of_nat i * limit) limit = Resolved (page i) ∧ page i ≠ []) →
  (∀ i : nat, (i < j)%nat → callback (page i) (st i) = (Resolved tt, st (S i))) →
  apply filter (Z.of_nat j * limit) limit = Rejected e →
  fetchEvents fuel filter callback (Some limit) (st 0%nat) w =
  mkRun (Some (Rejected e)) (st j)
    (mkWorld (ticks w)
       (trace w ++ pages_trace limit page 0 j ++ [EvApply (Z.of_nat j * limit) limit])).
Proof.
  intros Hfuel Hp Hok Hrej.
  unfold fetchEvents. simpl default.
  replace fuel with (j + S (fuel - S j))%nat by lia.
  rewrite (fetchLoop_pages filter callback limit page st j) by (auto with lia).
  simpl. unfold filter_apply, record. simpl. rewrite Hrej.
  rewrite <- app_assoc. reflexivity.
Qed.

(** X8.  A whole run: if the filter answers with [k] non-empty pages and
    then an empty one, and the callback accepts the pages, [fetchEvents]
    resolves; each page was handed over once, in order, so the consumer is
    left in the state [st k] that the [k] pages lead to, and the trace is
    the [k] turns followed by the last application of the filter. *)
Theorem fetchEvents_whole_run fuel filter callback (limit : Z)
    (page : nat → list Row) (st : nat → C) (k : nat) w :
  (k < fuel)%nat →
  (∀ j : nat, (j < k)%nat →
     apply filter (Z.of_nat j * limit) limit = Resolved (page j) ∧ page j ≠ []) →
  (∀ j : nat, (j < k)%nat → callback (page j) (st j) = (Resolved tt, st (S j))) →
  apply filter (Z.of_nat k * limit) limit = Resolved [] →
  fetchEvents fuel filter callback (Some limit) (st 0%nat) w =
  mkRun (Some (Resolved tt)) (st k)
    (mkWorld (ticks w)
       (trace w ++ pages_trace limit page 0 k ++ [EvApply (Z.of_nat k * limit) limit])).
Proof.
  intros Hfuel Hp Hok Hend.
  unfold fetchEvents. simpl default.
  replace fuel with (k + S (fuel - S k))%nat by lia.
  rewrite (fetchLoop_pages filter callback limit page st k) by (auto with lia).
  simpl. unfold filter_apply, record. simpl. rewrite Hend. simpl.
  rewrite <- app_assoc. reflexivity.
Qed.

(** X9.  Nothing but an empty page or a rejection ends the loop: on a filter
    that answers every page with rows, and a callback that accepts them,
    [fetchEvents] is still going on after any number of turns, having
    handed over one page per turn. *)
Theorem fetchEvents_without_end fuel filter callback (limit : Z)
    (page : nat → list Row) (st : nat → C) w :
  (∀ j : nat,
     apply filter (Z.of_nat j * limit) limit = Resolved (page j) ∧ page j ≠ []) →
  (∀ j : nat, callback (page j) (st j) = (Resolved tt, st (S j))) →
  fetchEvents fuel filter callback (Some limit) (st 0%nat) w =
  mkRun None (st fuel)
    (mkWorld (ticks w) (trace w ++ pages_trace limit page 0 fuel)).
Proof.
  intros Hp Hok.
  unfold fetchEvents. simpl default.
  replace fuel with (fuel + 0)%nat at 1 by lia.
  rewrite (fetchLoop_pages filter callback limit page st fuel) by auto.
  reflexivity.
Qed.

Lemma pages_trace_limit_0 (rows : list Row) (m : nat) : ∀ start,
  pages_trace 0 (λ _, rows) start m =
  concat (replicate m [EvApply 0 0; EvCallback rows]).
Proof.
  induction m as [|m IH]; intros start; [reflexivity|].
  rewrite pages_trace_cons, IH. simpl.
  replace (Z.of_nat start * 0) with 0 by lia. reflexivity.
Qed.

(** X10.  A page size of 0 never moves the offset: if the filter answers
    the window of no rows at offset 0 with rows all the same, and the
    callback accepts them, every turn applies the filter at offset 0 again
    and hands the same rows over, without end. *)
Theorem fetchEvents_page_size_zero fuel filter callback
    (rows : list Row) (st : nat → C) w :
  apply filter 0 0 = Resolved rows →
  rows ≠ [] →
  (∀ j : nat, callback rows (st j) = (Resolved tt, st (S j))) →
  fetchEvents fuel filter callback (Some 0) (st 0%nat) w =
  mkRun None (st fuel)
    (mkWorld (ticks w)
       (trace w ++ concat (replicate fuel [EvApply 0 0; EvCallback rows]))).
Proof.
  intros Hp Hne Hok.
  unfold fetchEvents. simpl default.
  replace fuel with (fuel + 0)%nat at 1 by lia.
  rewrite (fetchLoop_pages filter callback 0 (λ _, rows) st fuel).
  - simpl. rewrite pages_trace_limit_0. reflexivity.
  - intros j _. replace (Z.of_nat j * 0) with 0 by lia. auto.
  - intros j _. apply Hok.
Qed.

(** The loop never waits for a tick. *)
Lemma fetchLoop_ticks filter callback limit : ∀ (fuel : nat) offset c w,
  ticks (world (fetchLoop fuel filter callback limit offset c w)) = ticks w.
Proof.
  induction fuel as [|fuel IH]; intros offset c w; [reflexivity|].
  simpl. unfold filter_apply, invoke, record. simpl.
  destruct (apply filter offset limit) as [[|row rows]|e]; simpl; try reflexivity.
  destruct (callback (row :: rows) c) as [[[]|e] c2]; simpl; [|reflexivity].
  rewrite IH. reflexivity.
Qed.

Lemma pages_trace_all limit page (m : nat) : ∀ start,
  length (pages_trace limit page start m) = (m + m)%nat.
Proof.
  induction m as [|m IH]; intros start; [reflexivity|].
  rewrite pages_trace_cons. simpl. rewrite IH. lia.
Qed.

(** X11.  What [fetchEvents] does to the world, whatever the filter, the
    callback and the page size: it takes no tick; it adds nothing to the
    trace but applications of the filter and invocations of the callback;
    and the filter was applied as often as the callback was invoked, or
    once more. *)
Theorem fetchEvents_only_pages fuel filter callback (limit : option Z) c w :
  let run := fetchEvents fuel filter callback limit c w in
  ∃ tr : list Event,
    trace (world run) = trace w ++ tr ∧
    ticks (world run) = ticks w ∧
    (count is_apply tr + count is_callback tr)%nat = length tr ∧
    (count is_apply tr = count is_callback tr ∨
     count is_apply tr = S (count is_callback tr)).
Proof.
  cbv zeta. unfold fetchEvents.
  set (lim := default 20 limit).
  destruct (fetchLoop_shape filter callback lim fuel 0 c w) as (m & _ & _ & Hrun).
  cbv zeta in Hrun. simpl in Hrun.
  destruct Hrun as [(_ & _ & Ht)|[(e & _ & _ & Ht)|[(e & _ & _ & Ht)|(_ & _ & Ht)]]];
    eexists; (split; [exact Ht|]); (split; [apply fetchLoop_ticks|]);
    rewrite ?count_app, ?length_app, ?count_apply_pages_trace,
      ?count_callback_pages_trace, ?pages_trace_all; unfold count; simpl;
    split; lia.
Qed.

End FetchEventsRuns.

(** ** More on [getContract]: names, overloads and the methods at work *)

Section GetContractTables.
Context `{ConnexTypes}.
Variable connex : Connex.

(** What each table holds under a name: the last descriptor of that name
    and kind decides. *)
Lemma getContract_lookups (abi : list AbiItem) (address : Address) (n : string) :
  constant (methods (getContract connex abi address)) !! n =
    defineConstant connex address <$> last (filter (constant_named n) abi)
  ∧ signed (methods (getContract connex abi address)) !! n =
    defineSignedRequest connex address <$> last (filter (mutating_named n) abi)
  ∧ clause (methods (getContract connex abi address)) !! n =
    defineClause connex address <$> last (filter (mutating_named n) abi)
  ∧ events (getContract connex abi address) !! n =
    thor_event connex address <$> last (filter (event_named n) abi).
Proof.
  induction abi as [|item abi IH] using rev_ind.
  - unfold getContract. simpl. rewrite !lookup_empty. auto.
  - destruct IH as (IHc & IHs & IHl & IHe).
    rewrite getContract_snoc, !last_filter_snoc.
    rewrite addItem_constant, addItem_signed, addItem_clause, addItem_events.
    rewrite IHc, IHs, IHl, IHe.
    repeat split; case_decide; reflexivity.
Qed.

(** A descriptor found last among those of a kind is in the ABI and of that
    kind. *)
Lemma last_filter_Some (P : AbiItem → Prop) `{!∀ x, Decision (P x)}
    (abi : list AbiItem) (item : AbiItem) :
  last (filter P abi) = Some item → item ∈ abi ∧ P item.
Proof.
  intros Hlast. apply last_Some_elem_of in Hlast.
  apply list_elem_of_filter in Hlast. tauto.
Qed.

Lemma last_filter_None (P : AbiItem → Prop) `{!∀ x, Decision (P x)}
    (abi : list AbiItem) :
  last (filter P abi) = None → ∀ item, item ∈ abi → ¬ P item.
Proof.
  intros Hlast item Hin HP. apply last_None in Hlast.
  assert (Hf : item ∈ filter P abi) by (apply list_elem_of_filter; auto).
  rewrite Hlast in Hf. inversion Hf.
Qed.

(** When no two descriptors share a name, a name picks its descriptor. *)
Lemma unique_name (abi : list AbiItem) (x y : AbiItem) (n : string) :
  NoDup (omap name abi) →
  x ∈ abi → y ∈ abi → name x = Some n → name y = Some n → x = y.
Proof.
  induction abi as [|a abi IH]; intros Hnd Hx Hy Hnx Hny; [inversion Hx|].
  assert (Hin : ∀ z, z ∈ abi → name z = Some n → n ∈ omap name abi).
  { intros z Hz Hnz. apply list_elem_of_omap. eauto. }
  apply elem_of_cons in Hx as [->|Hx]; apply elem_of_cons in Hy as [->|Hy];
    try reflexivity; simpl in Hnd.
  - rewrite Hnx in Hnd. apply NoDup_cons in Hnd as [Hnot _].
    exfalso. apply Hnot. eauto.
  - rewrite Hny in Hnd. apply NoDup_cons in Hnd as [Hnot _].
    exfalso. apply Hnot. eauto.
  - apply IH; auto. destruct (name a); [apply NoDup_cons in Hnd; tauto | exact Hnd].
Qed.

Lemma last_filter_unique (P : AbiItem → Prop) `{!∀ x, Decision (P x)}
    (abi : list AbiItem) (item : AbiItem) (n : string) :
  (∀ x, P x → name x = Some n) →
  NoDup (omap name abi) → item ∈ abi → name item = Some n →
  last (filter P abi) = if decide (P item) then Some item else None.
Proof.
  intros HP Hnd Hin Hn.
  destruct (last (filter P abi)) as [y|] eqn:Hlast.
  - apply last_filter_Some in Hlast as [Hy HPy].
    assert (y = item) as -> by (eapply unique_name; eauto).
    rewrite decide_True by exact HPy. reflexivity.
  - rewrite decide_False; [reflexivity|].
    eapply last_filter_None; eauto.
Qed.

(** X12.  The table of signed methods and the table of clauses have the
    same names, whatever the ABI. *)
Theorem getContract_signed_clause_names (abi : list AbiItem) (address : Address) :
  dom (signed (methods (getContract connex abi address))) =
  dom (clause (methods (getContract connex abi address))).
Proof.
  apply set_eq. intros n. rewrite !elem_of_dom.
  destruct (getContract_lookups abi address n) as (_ & -> & -> & _).
  rewrite !fmap_is_Some. reflexivity.
Qed.

(** X13.  When no descriptor of the ABI is named ["__proto__"] and no two
    share a name, each named descriptor has an entry under its name in the
    tables of its kind and in no other: a view function in the constant
    table, any other function in the signed table and the clause table, an
    event in the event table. *)
Theorem getContract_unique_names (abi : list AbiItem) (address : Address)
    (item : AbiItem) (n : string) :
  plain_names abi →
  NoDup (omap name abi) →
  item ∈ abi →
  name item = Some n →
  let contract := getContract connex abi address in
  constant (methods contract) !! n =
    (if decide (constant_named n item)
     then Some (defineConstant connex address item) else None)
  ∧ signed (methods contract) !! n =
    (if decide (mutating_named n item)
     then Some (defineSignedRequest connex address item) else None)
  ∧ clause (methods contract) !! n =
    (if decide (mutating_named n item)
     then Some (defineClause connex address item) else None)
  ∧ events contract !! n =
    (if decide (event_named n item)
     then Some (thor_event connex address item) else None).
Proof.
  intros _ Hnd Hin Hn. cbv zeta.
  destruct (getContract_lookups abi address n) as (-> & -> & -> & ->).
  rewrite (last_filter_unique (constant_named n) abi item n),
          (last_filter_unique (mutating_named n) abi item n),
          (last_filter_unique (event_named n) abi item n);
    auto; try (intros x Hx; apply Hx).
  repeat split; case_decide; reflexivity.
Qed.

(** X14.  When no two descriptors of the ABI share a name, no name is both
    a constant method and a signed method. *)
Theorem getContract_constant_signed_disjoint (abi : list AbiItem) (address : Address) :
  NoDup (omap name abi) →
  dom (constant (methods (getContract connex abi address))) ##
  dom (signed (methods (getContract connex abi address))).
Proof.
  intros Hnd. apply elem_of_disjoint. intros n Hc Hs.
  apply elem_of_dom in Hc. apply elem_of_dom in Hs.
  destruct (getContract_lookups abi address n) as (Hlc & Hls & _ & _).
  rewrite Hlc in Hc. rewrite Hls in Hs.
  apply fmap_is_Some in Hc as [x Hx]. apply fmap_is_Some in Hs as [y Hy].
  apply last_filter_Some in Hx as [Hx (Hnx & _ & Hview)].
  apply last_filter_Some in Hy as [Hy (Hny & _ & Hmut)].
  assert (x = y) as -> by (eapply unique_name; eauto).
  contradiction.
Qed.


Lemma addItem_getAddress address contract item :
  getAddress (addItem connex address contract item) = getAddress contract.
Proof.
  unfold addItem. destruct (name item); [|reflexivity].
  repeat case_decide; reflexivity.
Qed.

(** X16.  [getAddress] of the contract answers with the address the
    contract was made for, whatever the ABI. *)
Theorem getContract_getAddress (abi : list AbiItem) (address : Address) :
  getAddress (getContract connex abi address) tt = address.
Proof.
  induction abi as [|item abi IH] using rev_ind; [reflexivity|].
  rewrite getContract_snoc, addItem_getAddress. exact IH.
Qed.

(** X17.  A constant method taken from the contract by name: it comes from
    a view function of the ABI with that name, and a call of it makes one
    call of that function at the contract's address, with the arguments
    given, and settles with the decoded output of the call (or with the
    call's rejection); it requests no signature. *)
Theorem getContract_constant_method (abi : list AbiItem) (address : Address)
    (n : string) (method : ConstantMethod) :
  constant (methods (getContract connex abi address)) !! n = Some method →
  ∃ item : AbiItem,
    item ∈ abi ∧ constant_named n item ∧
    ∀ (args : list Arg) (w : World),
      method args w =
      (match thor_call connex address item args with
       | Resolved res => Resolved (decoded res)
       | Rejected e => Rejected e
       end,
       mkWorld (ticks w) (trace w ++ [EvCall address item args])).
Proof.
  intros Hm.
  destruct (getContract_lookups abi address n) as (Hc & _).
  rewrite Hc in Hm. apply fmap_Some in Hm as (item & Hlast & ->).
  apply last_filter_Some in Hlast as [Hin HP].
  exists item. split; [exact Hin|]. split; [exact HP|].
  intros args w. apply defineConstant_call.
Qed.

(** X18.  A signed method and the clause method of the same name go
    together: both come from one function of the ABI with that name that
    is not a view function, and the signed method requests a signature for
    the very clause the clause method builds from the same arguments, with
    the comment when one is given; when building the clause throws, no
    signature is requested. *)
Theorem getContract_signed_method (abi : list AbiItem) (address : Address)
    (n : string) (method : SignedMethod) :
  signed (methods (getContract connex abi address)) !! n = Some method →
  ∃ (item : AbiItem) (builder : ClauseMethod),
    item ∈ abi ∧ mutating_named n item ∧
    clause (methods (getContract connex abi address)) !! n = Some builder ∧
    ∀ (args : list Arg) (comment : option string) (w : World),
      builder args w =
        (thor_asClause connex address item args,
         mkWorld (ticks w) (trace w ++ [EvAsClause address item args]))
      ∧ method args comment w =
        match builder args w with
        | (Resolved c, w') =>
            let service :=
              match comment with
              | Some text => service_comment connex (vendor_sign_tx connex [c]) text
              | None => vendor_sign_tx connex [c]
              end in
            (service_request connex service,
             mkWorld (ticks w') (trace w' ++ [EvRequest service]))
        | (Rejected e, w') => (Rejected e, w')
        end.
Proof.
  intros Hm.
  destruct (getContract_lookups abi address n) as (_ & Hs & Hl & _).
  rewrite Hs in Hm. apply fmap_Some in Hm as (item & Hlast & ->).
  rewrite Hl, Hlast. simpl.
  apply last_filter_Some in Hlast as [Hin HP].
  exists item, (defineClause connex address item).
  split; [exact Hin|]. split; [exact HP|]. split; [reflexivity|].
  intros args comment w. split; [reflexivity|].
  rewrite defineSignedRequest_call. unfold defineClause, asClause, record.
  destruct (thor_asClause connex address item args); [|reflexivity].
  simpl. rewrite <- app_assoc. reflexivity.
Qed.

(** The methods made from two descriptors differ when the descriptors do:
    the trace of a call tells which descriptor the method was made from. *)
Lemma defineSignedRequest_inj (address : Address) (x y : AbiItem) :
  defineSignedRequest connex address x = defineSignedRequest connex address y →
  x = y.
Proof.
  intros Heq.
  pose proof (f_equal (λ f, trace (f [] None (mkWorld 0 [])).2) Heq) as Htr.
  cbv beta in Htr. rewrite !defineSignedRequest_call in Htr.
  destruct (thor_asClause connex address x []), (thor_asClause connex address y []);
    simpl in Htr; injection Htr; auto.
Qed.

Lemma defineClause_inj (address : Address) (x y : AbiItem) :
  defineClause connex address x = defineClause connex address y → x = y.
Proof.
  intros Heq.
  pose proof (f_equal (λ f, trace (f [] (mkWorld 0 [])).2) Heq) as Htr.
  cbv beta in Htr. rewrite !defineClause_call in Htr.
  simpl in Htr. injection Htr. auto.
Qed.

End GetContractTables.

(** ** The further theorems at work on the sample collaborators *)

(** A budget of -3: not found at once, though the receipt is due on tick 1. *)
Lemma waitForReceipt_non_positive_budget_witness :
  waitForReceipt (Sample.chain 1 (Some ("0x5a", false))) "0x5a" (Some (-3))
    Sample.genesis =
  (Rejected NotFound, mkWorld 0 [EvTicker]).
Proof.
  apply (waitForReceipt_non_positive_budget
           (Sample.chain 1 (Some ("0x5a", false))) "0x5a" (-3) Sample.genesis).
  lia.
Defined.

(** The node goes away on tick 2: its rejection comes through after 2 ticks. *)
Lemma waitForReceipt_query_rejected_witness :
  waitForReceipt (Sample.flaky_chain 2) "0x5a" (Some 5) Sample.genesis =
  (Rejected Sample.unreachable, mkWorld 2 (EvTicker :: polls "0x5a" 2)).
Proof.
  apply (waitForReceipt_query_rejected (Sample.flaky_chain 2) "0x5a" 5 2
           Sample.unreachable Sample.genesis).
  - lia.
  - intros j Hj. assert (j = 1)%nat as -> by lia. reflexivity.
  - reflexivity.
Defined.

(** The receipt resolved on tick 3 is the chain's, and not reverted. *)
Lemma waitForReceipt_resolved_receipt_witness :
  reverted ("0x5a", false) = false ∧
  thor_getReceipt (Sample.chain 3 (Some ("0x5a", false))) "0x5a"
    (ticks (mkWorld 3 (EvTicker :: polls "0x5a" 3))) =
    Resolved (Some ("0x5a", false)) ∧
  (ticks Sample.genesis < ticks (mkWorld 3 (EvTicker :: polls "0x5a" 3)))%nat.
Proof.
  apply (waitForReceipt_resolved_receipt
           (Sample.chain 3 (Some ("0x5a", false))) "0x5a" (Some 5)
           ("0x5a", false) Sample.genesis).
  reflexivity.
Defined.

(** Found on tick 3 with budget 3: found the same with budget 10. *)
Lemma waitForReceipt_larger_budget_witness :
  waitForReceipt (Sample.chain 3 (Some ("0x5a", false))) "0x5a" (Some 10)
    Sample.genesis =
  (Resolved ("0x5a", false), mkWorld 3 (EvTicker :: polls "0x5a" 3)).
Proof.
  apply (waitForReceipt_larger_budget
           (Sample.chain 3 (Some ("0x5a", false))) "0x5a" 3 10).
  - reflexivity.
  - discriminate.
  - lia.
Defined.

(** Budget 2, then budget 3, on a chain that has the receipt on tick 4: as
    one call with budget 5. *)
Lemma waitForReceipt_retry_witness :
  let chain := Sample.chain 4 (Some ("0x5a", false)) in
  let first := waitForReceipt chain "0x5a" (Some (Z.of_nat 2)) Sample.genesis in
  let second := waitForReceipt chain "0x5a" (Some (Z.of_nat 3)) first.2 in
  let single := waitForReceipt chain "0x5a" (Some (Z.of_nat (2 + 3))) Sample.genesis in
  first.1 = Rejected NotFound ∧
  second.1 = single.1 ∧
  ticks second.2 = ticks single.2.
Proof.
  apply (waitForReceipt_retry (Sample.chain 4 (Some ("0x5a", false))) "0x5a"
           2 3 Sample.genesis).
  intros j Hj. assert (j = 1 ∨ j = 2)%nat as [-> | ->] by lia; reflexivity.
Defined.

(** The filter rejects the application at offset 20: the first page was
    consumed, the second never came. *)
Lemma fetchEvents_filter_rejected_witness :
  fetchEvents 5 (Sample.broken_filter (seq 0 27) 20) Sample.collect (Some 20)
    [] Sample.genesis =
  mkRun (Some (Rejected Sample.unreachable)) (seq 0 20)
    (mkWorld 0 [EvApply 0 20; EvCallback (seq 0 20); EvApply 20 20]).
Proof.
  apply (fetchEvents_filter_rejected 5 (Sample.broken_filter (seq 0 27) 20)
           Sample.collect 20 (λ _, seq 0 20) (λ j, take (20 * j) (seq 0 27)) 1
           Sample.unreachable Sample.genesis).
  - lia.
  - intros i Hi. assert (i = 0)%nat as -> by lia.
    split; [reflexivity | discriminate].
  - intros i Hi. assert (i = 0)%nat as -> by lia. reflexivity.
  - reflexivity.
Defined.

(** 27 rows in pages of 20: the consumer ends up with all 27, in order. *)
Lemma fetchEvents_whole_run_witness :
  fetchEvents 3 (Sample.log_filter (seq 0 27)) Sample.collect (Some 20)
    [] Sample.genesis =
  mkRun (Some (Resolved tt)) (seq 0 27)
    (mkWorld 0 [EvApply 0 20; EvCallback (seq 0 20);
                EvApply 20 20; EvCallback (seq 20 7);
                EvApply 40 20]).
Proof.
  apply (fetchEvents_whole_run 3 (Sample.log_filter (seq 0 27)) Sample.collect 20
           (page_at (Sample.log_filter (seq 0 27)) 20)
           (λ j, take (20 * j) (seq 0 27)) 2 Sample.genesis).
  - lia.
  - intros j Hj. assert (j = 0 ∨ j = 1)%nat as [-> | ->] by lia;
      (split; [reflexivity | discriminate]).
  - intros j Hj. assert (j = 0 ∨ j = 1)%nat as [-> | ->] by lia; reflexivity.
  - reflexivity.
Defined.

(** A filter that always has a row: three turns, and the run goes on. *)
Lemma fetchEvents_without_end_witness :
  fetchEvents 3 Sample.endless_filter Sample.tally (Some 20) 0%nat Sample.genesis =
  mkRun None 3%nat
    (mkWorld 0 [EvApply 0 20; EvCallback [7%nat];
                EvApply 20 20; EvCallback [7%nat];
                EvApply 40 20; EvCallback [7%nat]]).
Proof.
  apply (fetchEvents_without_end 3 Sample.endless_filter Sample.tally 20
           (λ _, [7%nat]) (λ j, j) Sample.genesis).
  - intros j. split; [reflexivity | discriminate].
  - intros j. reflexivity.
Defined.

(** Page size 0: the same application at offset 0, turn after turn. *)
Lemma fetchEvents_page_size_zero_witness :
  fetchEvents 2 Sample.endless_filter Sample.tally (Some 0) 0%nat Sample.genesis =
  mkRun None 2%nat
    (mkWorld 0 [EvApply 0 0; EvCallback [7%nat]; EvApply 0 0; EvCallback [7%nat]]).
Proof.
  apply (fetchEvents_page_size_zero 2 Sample.endless_filter Sample.tally
           [7%nat] (λ j, j) Sample.genesis).
  - reflexivity.
  - discriminate.
  - intros j. reflexivity.
Defined.

(** The ERC-20 like ABI has no two descriptors of one name: "transfer" is a
    signed method and a clause, and no constant method and no event. *)
Lemma getContract_unique_names_witness :
  let item := Sample.descriptor (Some "transfer") AbiFunction (Some Nonpayable) in
  let contract := getContract (Sample.chain 0 None) Sample.erc20 "0xc0de" in
  constant (methods contract) !! "transfer" =
    (if decide (constant_named "transfer" item)
     then Some (defineConstant (Sample.chain 0 None) "0xc0de" item) else None)
  ∧ signed (methods contract) !! "transfer" =
    (if decide (mutating_named "transfer" item)
     then Some (defineSignedRequest (Sample.chain 0 None) "0xc0de" item) else None)
  ∧ clause (methods contract) !! "transfer" =
    (if decide (mutating_named "transfer" item)
     then Some (defineClause (Sample.chain 0 None) "0xc0de" item) else None)
  ∧ events contract !! "transfer" =
    (if decide (event_named "transfer" item)
     then Some (thor_event (Sample.chain 0 None) "0xc0de" item) else None).
Proof.
  apply (getContract_unique_names (Sample.chain 0 None) Sample.erc20 "0xc0de"
           (Sample.descriptor (Some "transfer") AbiFunction (Some Nonpayable))
           "transfer").
  - apply (bool_decide_unpack _). vm_compute. exact I.
  - apply (bool_decide_unpack _). vm_compute. exact I.
  - apply list_elem_of_further, list_elem_of_here.
  - reflexivity.
Defined.

Lemma getContract_constant_signed_disjoint_witness :
  dom (constant (methods (getContract (Sample.chain 0 None) Sample.erc20 "0xc0de"))) ##
  dom (signed (methods (getContract (Sample.chain 0 None) Sample.erc20 "0xc0de"))).
Proof.
  apply (getContract_constant_signed_disjoint (Sample.chain 0 None) Sample.erc20
           "0xc0de").
  apply (bool_decide_unpack _). vm_compute. exact I.
Defined.

(** "balanceOf" of the ERC-20 like contract is a constant method: it calls
    the view function and hands back what the call decoded. *)
Lemma getContract_constant_method_witness :
  let connex := Sample.chain 0 None in
  let method :=
    defineConstant connex "0xc0de"
      (Sample.descriptor (Some "balanceOf") AbiFunction (Some View)) in
  ∃ item : AbiItem,
    item ∈ Sample.erc20 ∧ constant_named "balanceOf" item ∧
    ∀ (args : list Arg) (w : World),
      method args w =
      (match thor_call connex "0xc0de" item args with
       | Resolved res => Resolved (decoded res)
       | Rejected e => Rejected e
       end,
       mkWorld (ticks w) (trace w ++ [EvCall "0xc0de" item args])).
Proof.
  apply (getContract_constant_method (Sample.chain 0 None) Sample.erc20 "0xc0de"
           "balanceOf").
  reflexivity.
Defined.

(** "transfer" of the ERC-20 like contract: the signed method signs the
    clause that the clause method builds. *)
Lemma getContract_signed_method_witness :
  let connex := Sample.chain 0 None in
  let contract := getContract connex Sample.erc20 "0xc0de" in
  let method :=
    defineSignedRequest connex "0xc0de"
      (Sample.descriptor (Some "transfer") AbiFunction (Some Nonpayable)) in
  ∃ (item : AbiItem) (builder : ClauseMethod),
    item ∈ Sample.erc20 ∧ mutating_named "transfer" item ∧
    clause (methods contract) !! "transfer" = Some builder ∧
    ∀ (args : list Arg) (comment : option string) (w : World),
      builder args w =
        (thor_asClause connex "0xc0de" item args,
         mkWorld (ticks w) (trace w ++ [EvAsClause "0xc0de" item args]))
      ∧ method args comment w =
        match builder args w with
        | (Resolved c, w') =>
            let service :=
              match comment with
              | Some text => service_comment connex (vendor_sign_tx connex [c]) text
              | None => vendor_sign_tx connex [c]
              end in
            (service_request connex service,
             mkWorld (ticks w') (trace w' ++ [EvRequest service]))
        | (Rejected e, w') => (Rejected e, w')
        end.
Proof.
  apply (getContract_signed_method (Sample.chain 0 None) Sample.erc20 "0xc0de"
           "transfer").
  reflexivity.
Defined.

(** With an overloaded function the later descriptor stands: the ABI made of
    both halves holds, under "safeTransferFrom", the payable descriptor. *)
Example getContract_overloaded :
  let connex := Sample.chain 0 None in
  signed (methods (getContract connex Sample.overloaded "0xc0de")) !! "safeTransferFrom" =
  Some (defineSignedRequest connex "0xc0de"
          (mkAbiItem None None None (Some "safeTransferFrom") None None
             (Some Payable) AbiFunction None)).
Proof. reflexivity. Qed.

(** ** [signTx] and the signed methods *)

Section SignedMethods.
Context `{ConnexTypes}.
Variable connex : Connex.
Variable options : TxOptions.

(** X19.  A signed method called with a comment does what the clause
    method followed by [signTx] does, when [signTx] gets the one clause and
    the comment and neither signer, gas nor delegate.  Without a comment
    the two differ: the signed method sets no comment on the request, and
    [signTx] sets "Sign transaction". *)
Theorem signed_method_is_signTx (address : Address) (method : AbiItem)
    (args : list Arg) (w : World) :
  (∀ text : string,
     defineSignedRequest connex address method args (Some text) w =
     bind (defineClause connex address method args)
       (λ c, signTx connex options (mkSignTxArgs [c] None None None (Some text))) w)
  ∧ defineSignedRequest connex address method args None w =
    bind (defineClause connex address method args)
      (λ c, request connex (vendor_sign_tx connex [c])) w
  ∧ ∀ c : Clause,
      signTx connex options (mkSignTxArgs [c] None None None None) w =
      request connex
        (service_comment connex (vendor_sign_tx connex [c]) "Sign transaction") w.
Proof.
  repeat split.
Qed.

End SignedMethods.

(** ** [fetchEvents] on a filter that reads a log through its window *)

Section WindowedLog.
Context `{ConnexTypes} {C : Type}.
Implicit Types (filter : Filter) (callback : Callback C) (w : World).

Lemma pages_needed_bounds (rows : list Row) (size : nat) :
  (0 < size)%nat →
  (length rows ≤ pages_needed rows size * size)%nat ∧
  ∀ j : nat, (j < pages_needed rows size)%nat → (j * size < length rows)%nat.
Proof.
  intros Hsize. unfold pages_needed.
  pose proof (Nat.div_mod_eq (length rows + size - 1) size) as Hdiv.
  pose proof (Nat.mod_upper_bound (length rows + size - 1) size ltac:(lia)) as Hmod.
  split; [nia|]. intros j Hj. nia.
Qed.

Lemma window_rows (rows : list Row) (size j : nat) :
  (0 < size)%nat → (j * size < length rows)%nat → window rows size j ≠ [].
Proof.
  intros Hsize Hj Hnil. apply (f_equal length) in Hnil.
  unfold window in Hnil. rewrite length_take, length_drop in Hnil.
  simpl in Hnil. lia.
Qed.

Lemma window_concat (rows : list Row) (size : nat) (k : nat) :
  concat (map (window rows size) (seq 0 k)) = take (k * size) rows.
Proof.
  induction k as [|k IH]; [reflexivity|].
  rewrite seq_S, map_app, concat_app, IH. simpl. rewrite app_nil_r.
  unfold window. rewrite take_take_drop. f_equal. lia.
Qed.

(** X20.  On a filter that answers the window [offset, offset + size) of a
    fixed log of rows, with a page size above 0 and a callback that accepts
    the pages, [fetchEvents] resolves after as many pages as the log
    needs, and the pages handed over, put end to end, are the log: every
    row once, in order. *)
Theorem fetchEvents_windowed_log fuel filter callback (rows : list Row)
    (size : nat) (st : nat → C) w :
  (0 < size)%nat →
  (∀ j : nat,
     apply filter (Z.of_nat j * Z.of_nat size) (Z.of_nat size) =
     Resolved (window rows size j)) →
  (∀ j : nat, callback (window rows size j) (st j) = (Resolved tt, st (S j))) →
  (pages_needed rows size < fuel)%nat →
  let k := pages_needed rows size in
  fetchEvents fuel filter callback (Some (Z.of_nat size)) (st 0%nat) w =
    mkRun (Some (Resolved tt)) (st k)
      (mkWorld (ticks w)
         (trace w ++ pages_trace (Z.of_nat size) (window rows size) 0 k ++
          [EvApply (Z.of_nat k * Z.of_nat size) (Z.of_nat size)]))
  ∧ concat (map (window rows size) (seq 0 k)) = rows.
Proof.
  intros Hsize Hfilter Hok Hfuel. cbv zeta.
  destruct (pages_needed_bounds rows size Hsize) as [Hall Hsome].
  set (k := pages_needed rows size) in *.
  split.
  - unfold fetchEvents. simpl default.
    replace fuel with (k + S (fuel - S k))%nat by lia.
    rewrite (fetchLoop_pages filter callback (Z.of_nat size) (window rows size) st k).
    + simpl. unfold filter_apply, record. simpl. rewrite Hfilter.
      unfold window at 1. rewrite drop_ge by lia. rewrite take_nil. simpl.
      rewrite <- app_assoc. reflexivity.
    + intros j Hj. split; [apply Hfilter|]. apply window_rows; auto.
    + intros j _. apply Hok.
  - rewrite window_concat. apply take_ge. lia.
Qed.

End WindowedLog.

(** 27 rows read in pages of 20: two pages, three applications, and the
    consumer that keeps the rows has the log. *)
Lemma fetchEvents_windowed_log_witness :
  let rows := seq 0 27 in
  let k := pages_needed rows 20 in
  fetchEvents 5 (Sample.log_filter rows) Sample.collect (Some (Z.of_nat 20))
    (take (0 * 20) rows) Sample.genesis =
    mkRun (Some (Resolved tt)) (take (k * 20) rows)
      (mkWorld (ticks Sample.genesis)
         (trace Sample.genesis ++
          pages_trace (Z.of_nat 20) (window rows 20) 0 k ++
          [EvApply (Z.of_nat k * Z.of_nat 20) (Z.of_nat 20)]))
  ∧ concat (map (window rows 20) (seq 0 k)) = rows.
Proof.
  apply (fetchEvents_windowed_log 5 (Sample.log_filter (seq 0 27)) Sample.collect
           (seq 0 27) 20 (λ j, take (j * 20) (seq 0 27)) Sample.genesis).
  - lia.
  - intros j. unfold Sample.log_filter, window. simpl apply.
    rewrite <- Nat2Z.inj_mul, !Nat2Z.id. reflexivity.
  - intros j. unfold Sample.collect, window. f_equal.
    rewrite take_take_drop. f_equal. lia.
  - vm_compute. lia.
Defined.

(** ** [fetchEvents] on a filter that answers with short pages *)

Section ShortPages.
Context `{ConnexTypes} {C : Type}.
Implicit Types (filter : Filter) (callback : Callback C) (w : World).

Lemma pages_trace_callback limit (page : nat → list Row) (start m : nat)
    (rows : list Row) :
  EvCallback rows ∈ pages_trace limit page start m → ∃ j : nat, rows = page j.
Proof.
  unfold pages_trace. rewrite list_elem_of_In, in_flat_map.
  intros (j & _ & [Hj|[Hj|[]]]); [discriminate|].
  injection Hj as <-. eauto.
Qed.

(** X21.  The offset advances by the page size, not by the rows that came:
    on a filter that answers with at most [cap] rows of a log, [cap] below
    the page size, the row at position [cap] of the log is in no page that
    the callback gets, whatever the callback does and however long the run
    (the rows of the log being distinct). *)
Theorem fetchEvents_short_pages_skip fuel filter callback (rows : list Row)
    (cap size : nat) (r : Row) c w :
  (cap < size)%nat →
  NoDup rows →
  rows !! cap = Some r →
  (∀ j : nat,
     apply filter (Z.of_nat j * Z.of_nat size) (Z.of_nat size) =
     Resolved (take cap (drop (j * size) rows))) →
  ∃ tr : list Event,
    trace (world (fetchEvents fuel filter callback (Some (Z.of_nat size)) c w)) =
      trace w ++ tr ∧
    ∀ page : list Row, EvCallback page ∈ tr → r ∉ page.
Proof.
  intros Hcap Hnd Hr Hfilter.
  unfold fetchEvents. simpl default.
  destruct (fetchLoop_shape filter callback (Z.of_nat size) fuel 0 c w)
    as (m & _ & _ & Hrun).
  cbv zeta in Hrun. simpl in Hrun.
  assert (Hskip : ∀ page,
            EvCallback page ∈ pages_trace (Z.of_nat size)
                                 (page_at filter (Z.of_nat size)) 0 m →
            r ∉ page).
  { intros page Hin Hrin.
    apply pages_trace_callback in Hin as [j ->].
    unfold page_at in Hrin. rewrite Hfilter in Hrin.
    apply list_elem_of_lookup in Hrin as [i Hi].
    pose proof (lookup_lt_Some _ _ _ Hi) as Hlen.
    rewrite length_take in Hlen.
    rewrite lookup_take_lt in Hi by lia.
    rewrite lookup_drop in Hi.
    pose proof (NoDup_lookup _ _ _ _ Hnd Hi Hr) as Heq.
    destruct j as [|j]; simpl in Heq; nia. }
  destruct Hrun as [(_ & _ & Ht)|[(e & _ & _ & Ht)|[(e & _ & _ & Ht)|(_ & _ & Ht)]]];
    eexists; (split; [exact Ht|]); intros page Hin;
    try (apply elem_of_app in Hin as [Hin|Hin];
         [|apply list_elem_of_singleton in Hin; discriminate]);
    auto.
Qed.

End ShortPages.

(** A log of 27 rows, pages of 20 asked for, 5 rows at most answered: the
    row at position 5 never reaches the consumer. *)
Lemma fetchEvents_short_pages_skip_witness :
  ∃ tr : list Event,
    trace (world (fetchEvents 9 (Sample.capped_filter (seq 0 27) 5) Sample.collect
                    (Some (Z.of_nat 20)) [] Sample.genesis)) =
      trace Sample.genesis ++ tr ∧
    ∀ page : list nat, EvCallback page ∈ tr → 5%nat ∉ page.
Proof.
  apply (fetchEvents_short_pages_skip 9 (Sample.capped_filter (seq 0 27) 5)
           Sample.collect (seq 0 27) 5 20 5%nat [] Sample.genesis).
  - lia.
  - apply NoDup_seq.
  - reflexivity.
  - intros j. unfold Sample.capped_filter. simpl apply.
    rewrite <- Nat2Z.inj_mul, !Nat2Z.id. reflexivity.
Defined.

(** What that consumer ends up with: rows 0 to 4 and 20 to 24. *)
Example fetchEvents_short_pages :
  consumer (fetchEvents 9 (Sample.capped_filter (seq 0 27) 5) Sample.collect
              (Some 20) [] Sample.genesis) =
  seq 0 5 ++ seq 20 5.
Proof. reflexivity. Qed.

(** ** The tables of [getContract] on the sample ABIs *)

(** C9 as stated does not hold: of the two functions named
    "safeTransferFrom" of the overloaded ABI, the earlier one is a named
    function that is not a view function, and neither the table of signed
    methods nor the table of clauses holds, under any name, the method made
    from it; the assignment for the later one replaced it. *)
Lemma getContract_tables_counterexample :
  let connex := Sample.chain 0 None in
  let earlier :=
    mkAbiItem None None (Some []) (Some "safeTransferFrom") None None
      (Some Nonpayable) AbiFunction None in
  let contract := getContract connex Sample.overloaded "0xc0de" in
  earlier ∈ Sample.overloaded
  ∧ name earlier = Some "safeTransferFrom"
  ∧ type earlier = AbiFunction
  ∧ stateMutability earlier ≠ Some View
  ∧ (∀ n : string,
       signed (methods contract) !! n ≠
       Some (defineSignedRequest connex "0xc0de" earlier))
  ∧ (∀ n : string,
       clause (methods contract) !! n ≠
       Some (defineClause connex "0xc0de" earlier)).
Proof.
  cbv zeta. split; [apply list_elem_of_further, list_elem_of_here|].
  split; [reflexivity|]. split; [reflexivity|]. split; [discriminate|].
  split; intros n Heq;
    destruct (getContract_lookups (Sample.chain 0 None) Sample.overloaded
                "0xc0de" n) as (_ & Hs & Hl & _).
  - rewrite Hs in Heq. apply fmap_Some in Heq as (y & Hlast & Hy).
    apply defineSignedRequest_inj in Hy. subst y.
    pose proof (last_filter_Some _ _ _ Hlast) as [_ (Hn & _)].
    injection Hn as <-. vm_compute in Hlast. discriminate.
  - rewrite Hl in Heq. apply fmap_Some in Heq as (y & Hlast & Hy).
    apply defineClause_inj in Hy. subst y.
    pose proof (last_filter_Some _ _ _ Hlast) as [_ (Hn & _)].
    injection Hn as <-. vm_compute in Hlast. discriminate.
Qed.

(** The tables of the ERC-20 like contract under "transfer". *)
Lemma getContract_tables_witness :
  let connex := Sample.chain 0 None in
  let address : Address := "0xc0de" in
  let contract := getContract connex Sample.erc20 address in
  (constant (methods contract) !! "transfer" =
     defineConstant connex address <$>
       last (filter (constant_named "transfer") Sample.erc20)
   ∧ signed (methods contract) !! "transfer" =
     defineSignedRequest connex address <$>
       last (filter (mutating_named "transfer") Sample.erc20)
   ∧ clause (methods contract) !! "transfer" =
     defineClause connex address <$>
       last (filter (mutating_named "transfer") Sample.erc20)
   ∧ events contract !! "transfer" =
     thor_event connex address <$>
       last (filter (event_named "transfer") Sample.erc20))
  ∧ (∀ (item : AbiItem) (args : list Arg) (w : World),
       defineConstant connex address item args w =
       (match thor_call connex address item args with
        | Resolved res => Resolved (decoded res)
        | Rejected e => Rejected e
        end,
        mkWorld (ticks w) (trace w ++ [EvCall address item args])))
  ∧ (∀ (item : AbiItem) (args : list Arg) (comment : option string) (w : World),
       defineSignedRequest connex address item args comment w =
       match thor_asClause connex address item args with
       | Resolved c =>
           let service :=
             match comment with
             | Some text => service_comment connex (vendor_sign_tx connex [c]) text
             | None => vendor_sign_tx connex [c]
             end in
           (service_request connex service,
            mkWorld (ticks w)
              (trace w ++ [EvAsClause address item args; EvRequest service]))
       | Rejected e =>
           (Rejected e,
            mkWorld (ticks w) (trace w ++ [EvAsClause address item args]))
       end)
  ∧ (∀ (item : AbiItem) (args : list Arg) (w : World),
       defineClause connex address item args w =
       (thor_asClause connex address item args,
        mkWorld (ticks w) (trace w ++ [EvAsClause address item args]))).
Proof.
  apply (getContract_tables (Sample.chain 0 None) Sample.erc20 "0xc0de" "transfer").
  apply (bool_decide_unpack _). vm_compute. exact I.
Defined.

(** ** [waitForReceipt] for any finite budget and any ticker: its runs *)

Section WaitForReceiptAnyBudget.
Context `{ConnexTypes}.
Variable connex : Connex.
Variable ticker : Ticker.

(** One turn of the loop, as the source reads. *)
Lemma waitLoopQ_eq txId iterations i (w : World) :
  waitLoopQ connex ticker txId iterations i w =
  if Qlt_le_dec (inject_Z i) iterations
  then bind (ticker_next_of ticker) (λ _, bind (getReceipt connex txId) (λ receipt,
         match receipt with
         | Some r => if reverted r then throw Reverted else ret r
         | None => waitLoopQ connex ticker txId iterations (i + 1)
         end)) w
  else throw NotFound w.
Proof.
  simp waitLoopQ. destruct (Qlt_le_dec (inject_Z i) iterations); simpl; reflexivity.
Qed.

(** On an integer budget and a ticker whose every tick arrives, this loop is
    the loop of [waitLoop]. *)
Lemma waitLoopQ_integer txId (N : Z) :
  (∀ n : nat, next_answer ticker n = Resolved tt) →
  ∀ (n : nat) i (w : World),
    Z.to_nat (N - i) = n →
    waitLoopQ connex ticker txId (inject_Z N) i w = waitLoop connex txId N i w.
Proof.
  intros Hticks. induction n as [|n IH]; intros i w Hn;
    rewrite waitLoopQ_eq, waitLoop_eq;
    destruct (Qlt_le_dec (inject_Z i) (inject_Z N)) as [Hlt|Hle];
    destruct (Z_ge_lt_dec i N) as [Hge|Hlt'];
    try rewrite <- Zlt_Qlt in Hlt; try rewrite <- Zle_Qle in Hle;
    try lia; try reflexivity.
  unfold bind, ticker_next_of, ticker_next, getReceipt, record. simpl.
  rewrite Hticks. simpl.
  destruct (thor_getReceipt connex txId (S (ticks w))) as [[r|]|e]; try reflexivity.
  apply IH. lia.
Qed.

Lemma waitForReceiptQ_integer txId (iterations : option Z) (w : World) :
  (∀ n : nat, next_answer ticker n = Resolved tt) →
  waitForReceiptQ connex ticker txId (inject_Z <$> iterations) w =
  waitForReceipt connex txId iterations w.
Proof.
  intros Hticks. unfold waitForReceiptQ, waitForReceipt, bind, getTicker.
  destruct iterations as [N|]; simpl;
    eapply waitLoopQ_integer; eauto.
Qed.

(** Every run of the loop when [n] turns at most are left: [k] rounds of a
    tick and a query, and then either the loop is over, or one more tick was
    asked for and the ticker rejected. *)
Lemma waitLoopQ_rounds txId iterations : ∀ (n : nat) i (w : World),
  Z.to_nat (Qceiling iterations - i) = n →
  let run := waitLoopQ connex ticker txId iterations i w in
  ∃ k : nat,
    (k ≤ n)%nat ∧
    ticks run.2 = (ticks w + k)%nat ∧
    (trace run.2 = trace w ++ polls txId k
     ∨ ((k < n)%nat ∧
        trace run.2 = trace w ++ polls txId k ++ [EvNext] ∧
        ∃ e, next_answer ticker (ticks w + k)%nat = Rejected e ∧
             run.1 = Rejected e)).
Proof.
  induction n as [|n IH]; intros i w Hn; cbv zeta; rewrite waitLoopQ_eq;
    destruct (Qlt_le_dec (inject_Z i) iterations) as [Hlt|Hle].
  - exfalso. pose proof (Qle_ceiling iterations) as Hceil.
    assert (Hlt' : (inject_Z i < inject_Z (Qceiling iterations))%Q)
      by (eapply Qlt_le_trans; eauto).
    rewrite <- Zlt_Qlt in Hlt'. lia.
  - exists 0%nat. simpl. rewrite app_nil_r. auto with lia.
  - unfold bind, ticker_next_of, getReceipt, record. simpl.
    destruct (next_answer ticker (ticks w)) as [[]|e] eqn:Hnext.
    + simpl.
      destruct (thor_getReceipt connex txId (S (ticks w))) as [[r|]|e] eqn:Hq.
      * exists 1%nat. split; [lia|].
        unfold throw, ret. destruct (reverted r); simpl;
          (split; [lia|]); left; rewrite <- app_assoc; reflexivity.
      * match goal with
        | |- context [waitLoopQ connex ticker txId iterations (i + 1) ?w2] =>
            destruct (IH (i + 1) w2 ltac:(lia)) as (k & Hk & Ht & Htr)
        end.
        simpl in Ht, Htr. exists (S k). split; [lia|]. split; [lia|].
        destruct Htr as [Htr|(Hk' & Htr & e & He & Hr)].
        -- left. rewrite Htr, <- !app_assoc. reflexivity.
        -- right. split; [lia|]. split.
           ++ rewrite Htr, <- !app_assoc. reflexivity.
           ++ exists e. split; [|exact Hr].
              rewrite <- He. f_equal. lia.
      * exists 1%nat. split; [lia|]. simpl. split; [lia|].
        left. rewrite <- app_assoc. reflexivity.
    + exists 0%nat. split; [lia|]. simpl. split; [lia|].
      right. split; [lia|]. split; [reflexivity|].
      exists e. rewrite Nat.add_0_r. auto.
  - exists 0%nat. simpl. rewrite app_nil_r. auto with lia.
Qed.

(** X3.  Whatever the ticker and the receipt query answer, and for every
    finite budget up to [2 ^ 53], an integer or not (5 by default):
    [waitForReceipt] asks for at most as many ticks as the least integer
    that is no less than the budget, and for none when the budget is zero
    or less.  Each tick that arrives is followed by exactly one receipt
    query; a tick that the ticker rejects is followed by none, and the run
    rejects with the ticker's own reason. *)
Theorem waitForReceipt_within_budget txId (iterations : option Q) (w : World) :
  (default (inject_Z 5) iterations <= inject_Z (2 ^ 53))%Q →
  let run := waitForReceiptQ connex ticker txId iterations w in
  let budget := Z.to_nat (Qceiling (default (inject_Z 5) iterations)) in
  ∃ k : nat,
    (k ≤ budget)%nat ∧
    ticks run.2 = (ticks w + k)%nat ∧
    (trace run.2 = trace w ++ EvTicker :: polls txId k
     ∨ ((k < budget)%nat ∧
        trace run.2 = trace w ++ EvTicker :: polls txId k ++ [EvNext] ∧
        ∃ e, next_answer ticker (ticks w + k)%nat = Rejected e ∧
             run.1 = Rejected e)).
Proof.
  intros _. cbv zeta.
  unfold waitForReceiptQ, bind, getTicker. simpl.
  set (q := default (inject_Z 5) iterations).
  destruct (waitLoopQ_rounds txId q (Z.to_nat (Qceiling q)) 0 (record EvTicker w)
              ltac:(f_equal; lia)) as (k & Hk & Ht & Htr).
  simpl in Ht, Htr. exists k. split; [exact Hk|]. split; [exact Ht|].
  destruct Htr as [Htr|(Hk' & Htr & e & He & Hr)].
  - left. rewrite Htr, <- app_assoc. reflexivity.
  - right. split; [exact Hk'|]. split.
    + rewrite Htr, <- app_assoc. reflexivity.
    + exists e. auto.
Qed.

End WaitForReceiptAnyBudget.

(** A budget of 2.5 on a chain without the receipt: three ticks at most. *)
Lemma waitForReceipt_within_budget_witness :
  let run :=
    waitForReceiptQ (Sample.chain 0 None) Sample.steady "0x5a" (Some (5 # 2))
      Sample.genesis in
  let budget := Z.to_nat (Qceiling (default (inject_Z 5) (Some (5 # 2)))) in
  ∃ k : nat,
    (k ≤ budget)%nat ∧
    ticks run.2 = (ticks Sample.genesis + k)%nat ∧
    (trace run.2 = trace Sample.genesis ++ EvTicker :: polls "0x5a" k
     ∨ ((k < budget)%nat ∧
        trace run.2 = trace Sample.genesis ++ EvTicker :: polls "0x5a" k ++ [EvNext] ∧
        ∃ e, next_answer Sample.steady (ticks Sample.genesis + k)%nat = Rejected e ∧
             run.1 = Rejected e)).
Proof.
  apply (waitForReceipt_within_budget (Sample.chain 0 None) Sample.steady "0x5a"
           (Some (5 # 2)) Sample.genesis).
  unfold Qle. simpl. lia.
Defined.

(** The same run, and a run on a ticker that rejects the third call. *)
Example waitForReceipt_fractional_budget :
  waitForReceiptQ (Sample.chain 0 None) Sample.steady "0x5a" (Some (5 # 2))
    Sample.genesis =
  (Rejected NotFound, mkWorld 3 (EvTicker :: polls "0x5a" 3)).
Proof. reflexivity. Qed.

Example waitForReceipt_stalling_ticker :
  waitForReceiptQ (Sample.chain 0 None) (Sample.stalling 2) "0x5a" None
    Sample.genesis =
  (Rejected Sample.unreachable,
   mkWorld 2 (EvTicker :: polls "0x5a" 2 ++ [EvNext])).
Proof. reflexivity. Qed.
